(** * Power Query Explorer: extraction core, embedded in Rocq

    A shallow embedding of the decoding pipeline of [src/src/app.js] and of
    the data-model decoder shipped next to the XPress9 wrapper
    ([src/wasm/xpress9/xpress9_wasm.c]), followed by the properties the
    specification states about them.

    Conventions of the embedding:
    - a JavaScript [Number] that only ever holds an integer is a [Z]; where
      the source converts a 64-bit integer to a [Number] the rounding to a
      double is written out ([fl]);
    - a [BigInt] is a [Z], with [Z.land] and [Z.shiftr] for [&] and [>>];
    - a [Uint8Array] is a [list byte]; a [DataView] read outside the buffer
      throws, which is the [Throw] case of [result];
    - a JavaScript string is the list of its UTF-16 code units ([jsstring]);
    - a [Map] keyed by strings is a [gmap], a [Set] whose iteration order is
      observed is a duplicate-free list in insertion order. *)

From stdpp Require Import prelude gmap strings.
From Stdlib Require Import ZArith NArith Lia Strings.Byte Strings.Ascii.

Local Open Scope Z_scope.

(** ** Results of operations that can throw *)

Inductive result (A : Type) : Type :=
| Ok (a : A)
| Throw (msg : string).
Arguments Ok {A} a.
Arguments Throw {A} msg.

#[global] Instance result_ret : MRet result := fun A a => Ok a.
#[global] Instance result_bind : MBind result := fun A B f r =>
  match r with
  | Ok a => f a
  | Throw m => Throw m
  end.
#[global] Instance result_fmap : FMap result := fun A B f r =>
  match r with
  | Ok a => Ok (f a)
  | Throw m => Throw m
  end.

(** [try { body } catch (e) { handler }] *)
Definition try_catch {A} (body : result A) (handler : string -> result A) : result A :=
  match body with
  | Ok a => Ok a
  | Throw m => handler m
  end.

Definition is_ok {A} (r : result A) : bool :=
  match r with Ok _ => true | Throw _ => false end.

(** ** Numbers *)

Definition len {A} (l : list A) : Z := Z.of_nat (length l).

(** Rounding of an integer to the nearest double (ties to even): the value a
    [Number] holds after [Number(bigint)] or after an addition whose exact
    result is the argument. Integers below 2^53 in magnitude are exact. *)
Definition fl (z : Z) : Z :=
  let a := Z.abs z in
  if a <? 2 ^ 53 then z
  else
    let e := Z.log2 a - 52 in
    let q := Z.shiftr a e in
    let r := Z.land a (Z.ones e) in
    let h := 2 ^ (e - 1) in
    let q' := if (h <? r) || ((r =? h) && Z.odd q) then q + 1 else q in
    Z.sgn z * (q' * 2 ^ e).

(** [ToInt32] and the 32-bit shift [a << b] of JavaScript: the shift count
    is taken modulo 32 and the result wraps to a signed 32-bit integer. *)
Definition toInt32 (z : Z) : Z :=
  let m := z mod 2 ^ 32 in
  if m <? 2 ^ 31 then m else m - 2 ^ 32.

Definition js_shl (a b : Z) : Z :=
  toInt32 (Z.shiftl (toInt32 a) (b mod 32)).

(** ** Byte buffers and DataView reads *)

#[global] Instance byte_eq_decision : EqDecision byte := Byte.byte_eq_dec.

Definition u8 (b : byte) : Z := Z.of_N (Byte.to_N b).

Definition byte_of_Z (z : Z) : byte :=
  match Byte.of_N (Z.to_N (z mod 256)) with
  | Some b => b
  | None => x00
  end.

Definition bytes_of (l : list Z) : list byte := map byte_of_Z l.

Fixpoint le_combine (l : list byte) : Z :=
  match l with
  | [] => 0
  | b :: t => u8 b + 256 * le_combine t
  end.

Definition be_combine (l : list byte) : Z := le_combine (rev l).

Definition slice {A} (l : list A) (from to : Z) : list A :=
  take (Z.to_nat (to - from)) (drop (Z.to_nat from) l).

(** [dv.getUintN(pos, true)] for N = 8 * n: little endian, RangeError when
    the read leaves the view. *)
Definition getUintLE (n : Z) (buf : list byte) (pos : Z) : result Z :=
  if (0 <=? pos) && (pos + n <=? len buf)
  then Ok (le_combine (slice buf pos (pos + n)))
  else Throw "RangeError: Offset is outside the bounds of the DataView".

Definition getUint32 := getUintLE 4.
Definition getBigUint64 := getUintLE 8.

(** [Number(dv.getBigUint64(pos, true))] *)
Definition getU64Number (buf : list byte) (pos : Z) : result Z :=
  fl <$> getBigUint64 buf pos.

(** ** Column index files (IDF) *)

Record IdfMeta := {
  minDataId : Z;
  countBitPacked : Z;
  bitWidth : Z;
  rowCount : Z
}.

Record Entry := { dataValue : Z; repeatValue : Z }.

Record IdfData := {
  primarySegment : list Entry;
  subSegment : list Z
}.

Definition readIdfMeta (buf : list byte) : result IdfMeta :=
  let pos := 0 in
  let pos := pos + 6 in (* CP tag *)
  let pos := pos + 8 in (* version_one *)
  let pos := pos + 6 in (* CS tag *)
  let pos := pos + 8 in (* records *)
  let pos := pos + 8 in (* one *)
  aba5a ← getUint32 buf pos; let pos := pos + 4 in
  iterator ← getUint32 buf pos; let pos := pos + 4 in
  let pos := pos + 8 in (* bookmark_bits *)
  let pos := pos + 8 in (* storage_alloc_size *)
  let pos := pos + 8 in (* storage_used_size *)
  let pos := pos + 1 in (* segment_needs_resizing *)
  let pos := pos + 4 in (* compression_info *)
  let pos := pos + 6 in (* SS tag *)
  let pos := pos + 8 in (* distinct_states *)
  minDataId ← getUint32 buf pos; let pos := pos + 4 in
  let pos := pos + 4 in (* max_data_id *)
  let pos := pos + 4 in (* original_min_segment_data_id *)
  let pos := pos + 8 in (* rle_sort_order *)
  rowCount ← getU64Number buf pos; let pos := pos + 8 in
  let pos := pos + 1 in (* has_nulls *)
  let pos := pos + 8 in (* rle_runs *)
  let pos := pos + 8 in (* others_rle_runs *)
  let pos := pos + 6 in (* SS end tag *)
  let pos := pos + 1 in (* has_bit_packed_sub_seg *)
  let pos := pos + 6 in (* CS1 tag *)
  countBitPacked ← getU64Number buf pos;
  let bitWidth := (36 - aba5a) + iterator in
  Ok {| minDataId := minDataId; countBitPacked := countBitPacked;
        bitWidth := bitWidth; rowCount := rowCount |}.

(** The two reading loops of [readIdf]: [n] iterations from [pos]. *)
Fixpoint readPrimary (n : nat) (buf : list byte) (pos : Z) (acc : list Entry)
  : result (list Entry * Z) :=
  match n with
  | O => Ok (acc, pos)
  | S n' =>
      dataValue ← getUint32 buf pos;
      repeatValue ← getUint32 buf (pos + 4);
      readPrimary n' buf (pos + 8)
        (acc ++ [{| dataValue := dataValue; repeatValue := repeatValue |}])
  end.

Fixpoint readSub (n : nat) (buf : list byte) (pos : Z) (acc : list Z)
  : result (list Z) :=
  match n with
  | O => Ok acc
  | S n' =>
      w ← getBigUint64 buf pos;
      readSub n' buf (pos + 8) (acc ++ [w])
  end.

Definition readIdf (buf : list byte) : result IdfData :=
  let pos := 0 in
  primarySize ← getU64Number buf pos; let pos := pos + 8 in
  '(primarySegment, pos) ← readPrimary (Z.to_nat primarySize) buf pos [];
  subSegSize ← getU64Number buf pos; let pos := pos + 8 in
  subSegment ← readSub (Z.to_nat subSegSize) buf pos [];
  Ok {| primarySegment := primarySegment; subSegment := subSegment |}.

(** A value held by a JavaScript array slot of the id vector. *)
Inductive jsval :=
| Num (z : Z)
| Undefined.

#[global] Instance jsval_eq_dec : EqDecision jsval.
Proof. solve_decision. Defined.

(** [a[k]]: [undefined] outside the array. *)
Definition arrayGet (a : list Z) (k : Z) : jsval :=
  if (0 <=? k) && (k <? len a)
  then match a !! Z.to_nat k with Some v => Num v | None => Undefined end
  else Undefined.

(** The inner loop over one 64-bit word:
      [for (let j = 0; j < count; j++) { push(Number(minId + (val & mask))); val >>= bw; }]
    with [count = 64 / bitWidth], a real-valued quotient, so that for a
    positive width [j < count] is [j * bitWidth < 64]. At most 64 iterations
    can run for a positive width, which is the fuel given by the caller. *)
Fixpoint unpackLoop (fuel : nat) (bitWidth minId mask : Z) (j val : Z)
  (bitpackedValues : list Z) : list Z :=
  match fuel with
  | O => bitpackedValues
  | S k =>
      if j * bitWidth <? 64
      then unpackLoop k bitWidth minId mask (j + 1) (Z.shiftr val bitWidth)
             (bitpackedValues ++ [fl (minId + Z.land val mask)])
      else bitpackedValues
  end.

Definition unpackWord (bitWidth minId mask : Z) (bitpackedValues : list Z) (u64 : Z)
  : list Z :=
  if bitWidth <? 0 then bitpackedValues (* count < 0: the loop body never runs *)
  else unpackLoop 64 bitWidth minId mask 0 u64 bitpackedValues.

(** First half of [decodeRleBitPackedHybrid]: the bit-packed id stream. *)
Definition bitpackedOf (idfData : IdfData) (meta : IdfMeta) : result (list Z) :=
  let subSegment := subSegment idfData in
  if (0 <? countBitPacked meta) && (0 <? len subSegment) then
    if (len subSegment =? 1) && (bool_decide (subSegment !! 0%nat = Some 0)) then
      (* new Array(countBitPacked).fill(minDataId) *)
      if countBitPacked meta <=? 2 ^ 32 - 1
      then Ok (replicate (Z.to_nat (countBitPacked meta)) (minDataId meta))
      else Throw "RangeError: Invalid array length"
    else
      let mask := js_shl 1 (bitWidth meta) - 1 in
      if bitWidth meta =? 0
      then (* count = Infinity: the inner loop pushes without end *)
        Throw "RangeError: Invalid array length"
      else Ok (fold_left (unpackWord (bitWidth meta) (minDataId meta) mask) subSegment [])
  else Ok [].

(** The sentinel branch's loop
      [for (let i = 0; i < count && bpOffset + i < bitpackedValues.length; i++)]
    It runs at most [bitpackedValues.length - bpOffset] times. *)
Fixpoint takeLoop (fuel : nat) (bitpackedValues : list Z) (bpOffset count i : Z)
  (vector : list jsval) : list jsval :=
  match fuel with
  | O => vector
  | S k =>
      if (i <? count) && (bpOffset + i <? len bitpackedValues)
      then takeLoop k bitpackedValues bpOffset count (i + 1)
             (vector ++ [arrayGet bitpackedValues (bpOffset + i)])
      else vector
  end.

(** Body of [for (const entry of primarySegment)], on the state
    [(vector, bpOffset)]. *)
Definition expandEntry (bitpackedValues : list Z) (st : list jsval * Z) (entry : Entry)
  : list jsval * Z :=
  let '(vector, bpOffset) := st in
  if dataValue entry + bpOffset =? 0xFFFFFFFF then
    let count := repeatValue entry in
    let vector := takeLoop (Z.to_nat (len bitpackedValues - bpOffset))
                    bitpackedValues bpOffset count 0 vector in
    (vector, bpOffset + count)
  else
    (vector ++ replicate (Z.to_nat (repeatValue entry)) (Num (dataValue entry)), bpOffset).

Definition decodeRleBitPackedHybrid (idfData : IdfData) (meta : IdfMeta)
  : result (list jsval) :=
  bitpackedValues ← bitpackedOf idfData meta;
  Ok (fold_left (expandEntry bitpackedValues) (primarySegment idfData) ([], 0)).1.

(** ** Strings *)

(** A JavaScript string: its UTF-16 code units. *)
Abbreviation jsstring := (list N).

Definition js (s : string) : jsstring :=
  (fun a => Ascii.N_of_ascii a) <$> String.list_ascii_of_string s.

(** Truthiness of a value that is a string, [null] or [undefined]. *)
Definition truthy (o : option jsstring) : bool :=
  match o with
  | Some (_ :: _) => true
  | _ => false
  end.

(** ** Column extraction *)

Module Column.
Record t := {
  name : jsstring;
  idf : jsstring;
  dictionary : option jsstring;
  hidx : option jsstring;
  dataType : Z;
  baseId : Z;
  magnitude : Z;
  isNullable : bool;
  cardinality : Z
}.
End Column.

(** A cell of a decoded column: a raw id of the index vector, a value
    resolved through the dictionary or the hierarchy index, or [null]. *)
Inductive cell (V : Type) :=
| CId (v : jsval)
| CVal (v : V)
| CNull.
Arguments CId {V} v.
Arguments CVal {V} v.
Arguments CNull {V}.

Record TableData (V : Type) := {
  columns : list jsstring;
  columnData : list (list (cell V));
  tableRowCount : Z
}.
Arguments columns {V} _.
Arguments columnData {V} _.
Arguments tableRowCount {V} _.

Section ColumnExtraction.

(** Resolved values (numbers, strings, dates) and the three operations on
    them that [_extractColumn] calls: the dictionary reader (which can
    throw), the type coercion, and the floating-point quotient
    [(idx + col.baseId) / col.magnitude] of the hierarchy path, already
    coerced. *)
Variable V : Type.
Variable readDictionary : list byte -> Z -> result (gmap Z V).
Variable convertColumnValue : V -> Z -> V.
Variable hidxValue : Column.t -> jsval -> V.

(** [dict.get(idx)], then the coercion or [null]. *)
Definition resolveId (dict : gmap Z V) (dataType : Z) (idx : jsval) : cell V :=
  match idx with
  | Num z =>
      match dict !! z with
      | Some v => CVal (convertColumnValue v dataType)
      | None => CNull
      end
  | Undefined => CNull
  end.

(** [_extractColumn]: [Ok None] is the source's [return null]. *)
Definition _extractColumn (col : Column.t) (fileCache : gmap jsstring (list byte))
  : result (option (list (cell V))) :=
  match fileCache !! (Column.idf col ++ js "meta") with
  | None => Ok None
  | Some metaBuf =>
      match readIdfMeta metaBuf with
      | Throw _ => Ok None
      | Ok meta =>
          match fileCache !! Column.idf col with
          | None => Ok None
          | Some idfBuf =>
              idfData ← readIdf idfBuf;
              indices ← decodeRleBitPackedHybrid idfData meta;
              if truthy (Column.dictionary col) then
                try_catch
                  (match fileCache !! default [] (Column.dictionary col) with
                   | None => Ok (Some (map CId indices))
                   | Some dictBuf =>
                       dict ← readDictionary dictBuf (minDataId meta);
                       Ok (Some (map (resolveId dict (Column.dataType col)) indices))
                   end)
                  (fun _ => Ok (Some (map CId indices)))
              else if truthy (Column.hidx col) then
                Ok (Some (map (CVal ∘ hidxValue col) indices))
              else Ok (Some (map CId indices))
          end
      end
  end.

(** The loop of [extractTableData] over the columns of the table, on the
    state [(columns, columnData)]. *)
Fixpoint extractColumns (cols : list Column.t) (fileCache : gmap jsstring (list byte))
  (columns : list jsstring) (columnData : list (list (cell V)))
  : result (list jsstring * list (list (cell V))) :=
  match cols with
  | [] => Ok (columns, columnData)
  | col :: rest =>
      values ← _extractColumn col fileCache;
      match values with
      | None => extractColumns rest fileCache columns columnData
      | Some values =>
          extractColumns rest fileCache
            (columns ++ [Column.name col]) (columnData ++ [values])
      end
  end.

Definition extractTableData (tableName : jsstring)
  (schema : gmap jsstring (list Column.t)) (fileCache : gmap jsstring (list byte))
  : result (TableData V) :=
  match schema !! tableName with
  | None => Throw "Table not found"
  | Some tableColumns =>
      '(columns, columnData) ← extractColumns tableColumns fileCache [] [];
      let rowCount := fold_left (fun max c => Z.max max (len c)) columnData 0 in
      Ok {| columns := columns; columnData := columnData; tableRowCount := rowCount |}
  end.

End ColumnExtraction.

(** ** Records of the relational page reader *)

(** A [Number] that may be [NaN] (arithmetic on a missing byte). *)
Inductive number :=
| Int (z : Z)
| NaN.

Inductive sqlval :=
| SqlNull
| SqlNum (n : number)
| SqlFloat (bits : Z)          (* the 8 bytes read by getFloat64, big endian *)
| SqlBlob (b : list byte)
| SqlText (utf8 : list byte).  (* the bytes handed to TextDecoder('utf-8') *)

(** [data[k]] on a Uint8Array: [None] is [undefined]. *)
Definition byteAt (data : list byte) (k : Z) : option Z :=
  if 0 <=? k then u8 <$> data !! Z.to_nat k else None.

(** [b & m] where [b] is a byte or [undefined] (which converts to 0). *)
Definition andByte (b : option Z) (m : Z) : Z := Z.land (default 0 b) m.

(** The first loop of [readVarint]: bytes [i = 8 - fuel .. 7]. *)
Fixpoint readVarintLoop (fuel : nat) (data : list byte) (pos : Z) (i : Z) (result : Z)
  : Z * Z + Z :=
  match fuel with
  | O => inr result
  | S k =>
      let b := byteAt data (pos + i) in
      let result := fl (result * 128 + andByte b 0x7f) in
      if andByte b 0x80 =? 0 then inl (result, i + 1)
      else readVarintLoop k data pos (i + 1) result
  end.

(** [readVarint(data, pos)]: the value [v] and the byte count [n]. *)
Definition readVarint (data : list byte) (pos : Z) : number * Z :=
  match readVarintLoop 8 data pos 0 0 with
  | inl (v, n) => (Int v, n)
  | inr result =>
      (* 9th byte: full 8 bits *)
      match byteAt data (pos + 8) with
      | Some b => (Int (fl (result * 256 + b)), 9)
      | None => (NaN, 9)
      end
  end.

(** [while (pos < headerLen)] of [parseRecord]; every round advances [pos]
    by at least one, so [headerLen] rounds are enough. *)
Fixpoint readTypes (fuel : nat) (payload : list byte) (headerLen pos : Z)
  (types : list number) : list number :=
  match fuel with
  | O => types
  | S k =>
      if pos <? headerLen then
        let '(st, sn) := readVarint payload pos in
        readTypes k payload headerLen (pos + sn) (types ++ [st])
      else types
  end.

(** [for (let i = 0; i < len; i++) val = val * 256 + payload[dPos + i]] *)
Fixpoint readIntLoop (n : nat) (payload : list byte) (dPos i : Z) (val : number) : number :=
  match n with
  | O => val
  | S k =>
      let val :=
        match val, byteAt payload (dPos + i) with
        | Int v, Some b => Int (fl (v * 256 + b))
        | _, _ => NaN
        end in
      readIntLoop k payload dPos (i + 1) val
  end.

Definition intLens : list Z := [0; 1; 2; 3; 4; 6; 8].

(** One serial type of the value loop of [parseRecord], on [(values, dPos)]. *)
Definition readValue (payload : list byte) (st : number) (acc : list sqlval * Z)
  : result (list sqlval * Z) :=
  let '(values, dPos) := acc in
  match st with
  | NaN => Ok (values ++ [SqlNull], dPos)
  | Int st =>
      if st =? 0 then Ok (values ++ [SqlNull], dPos)
      else if (1 <=? st) && (st <=? 6) then
        let len := default 0 (intLens !! Z.to_nat st) in
        let val := readIntLoop (Z.to_nat len) payload dPos 0 (Int 0) in
        (* Sign extend for negative values *)
        let val :=
          if (0 <? len) && negb (andByte (byteAt payload dPos) 0x80 =? 0)
          then match val with
               | Int v => Int (fl (v - js_shl 1 (len * 8)))
               | NaN => NaN
               end
          else val in
        Ok (values ++ [SqlNum val], dPos + len)
      else if st =? 7 then
        if dPos + 8 <=? Z.of_nat (length payload)
        then Ok (values ++ [SqlFloat (be_combine (slice payload dPos (dPos + 8)))], dPos + 8)
        else Throw "RangeError: Invalid DataView length"
      else if st =? 8 then Ok (values ++ [SqlNum (Int 0)], dPos)
      else if st =? 9 then Ok (values ++ [SqlNum (Int 1)], dPos)
      else if (12 <=? st) && (st mod 2 =? 0) then
        let len := fl (st - 12) / 2 in
        Ok (values ++ [SqlBlob (slice payload dPos (dPos + len))], dPos + len)
      else if (13 <=? st) && (st mod 2 =? 1) then
        let len := fl (st - 13) / 2 in
        Ok (values ++ [SqlText (slice payload dPos (dPos + len))], dPos + len)
      else Ok (values ++ [SqlNull], dPos)
  end.

Fixpoint readValues (payload : list byte) (types : list number) (acc : list sqlval * Z)
  : result (list sqlval) :=
  match types with
  | [] => Ok acc.1
  | st :: rest =>
      acc ← readValue payload st acc;
      readValues payload rest acc
  end.

Definition parseRecord (payload : list byte) : result (list sqlval) :=
  let '(headerLen, hb) := readVarint payload 0 in
  match headerLen with
  | NaN => Ok []   (* pos < NaN is false, and there is no type to decode *)
  | Int headerLen =>
      let types := readTypes (Z.to_nat headerLen) payload headerLen hb [] in
      readValues payload types ([], headerLen)
  end.

(** ** String operations of the query source analyzer *)

Definition chr (a : ascii) : N := Ascii.N_of_ascii a.
Arguments chr a%_char.

Definition DQUOTE : N := 34.
Definition LF : N := 10.
Definition SPACE : N := 32.

Definition inRange (lo hi c : N) : bool := ((lo <=? c) && (c <=? hi))%N.

(** [\w] *)
Definition isWord (c : N) : bool :=
  inRange 48 57 c || inRange 65 90 c || (c =? 95)%N || inRange 97 122 c.

(** [\d] *)
Definition isDigit (c : N) : bool := inRange 48 57 c.

(** [\s], which is also the set removed by [trim]: WhiteSpace and
    LineTerminator code units. *)
Definition isSpace (c : N) : bool :=
  inRange 9 13 c || (c =? 32)%N || (c =? 160)%N || (c =? 0x1680)%N
  || inRange 0x2000 0x200A c || (c =? 0x2028)%N || (c =? 0x2029)%N
  || (c =? 0x202F)%N || (c =? 0x205F)%N || (c =? 0x3000)%N || (c =? 0xFEFF)%N.

(** The complement of [.]: line terminators. *)
Definition isLineTerminator (c : N) : bool :=
  (c =? 10)%N || (c =? 13)%N || (c =? 0x2028)%N || (c =? 0x2029)%N.

Definition isChar (c : N) : N -> bool := fun x => (x =? c)%N.
Definition notChar (c : N) : N -> bool := fun x => negb (x =? c)%N.

(** A literal letter under the [i] flag (without [u]): only the two ASCII
    cases of the letter canonicalize to it. *)
Definition isCI (c : N) : N -> bool := fun x =>
  (x =? c)%N
  || (inRange 65 90 c && (x =? c + 32)%N)
  || (inRange 97 122 c && (x =? c - 32)%N).

Definition clamp (lo hi x : Z) : Z := Z.max lo (Z.min hi x).

(** [s.substring(a, b)] and [s.substring(a)] *)
Definition substring (s : jsstring) (a b : Z) : jsstring :=
  let a := clamp 0 (len s) a in
  let b := clamp 0 (len s) b in
  slice s (Z.min a b) (Z.max a b).

Definition substringFrom (s : jsstring) (a : Z) : jsstring :=
  substring s a (len s).

(** [s.slice(a, b)], negative indices counting from the end *)
Definition sliceStr (s : jsstring) (a b : Z) : jsstring :=
  let rel x := if x <? 0 then Z.max (len s + x) 0 else Z.min x (len s) in
  slice s (rel a) (Z.max (rel a) (rel b)).

Fixpoint startsWith (s prefix : jsstring) : bool :=
  match prefix, s with
  | [], _ => true
  | p :: prefix', c :: s' => (c =? p)%N && startsWith s' prefix'
  | _ :: _, [] => false
  end.

Definition endsWith (s suffix : jsstring) : bool :=
  startsWith (rev s) (rev suffix).

(** [s.indexOf(needle, from)]: candidates [k = from, from + 1, ...]. *)
Fixpoint indexOfLoop (fuel : nat) (s needle : jsstring) (k : nat) : Z :=
  match fuel with
  | O => -1
  | S f =>
      if (k + length needle <=? length s)%nat && startsWith (drop k s) needle
      then Z.of_nat k
      else indexOfLoop f s needle (S k)
  end.

Definition indexOf (s needle : jsstring) (from : Z) : Z :=
  let k := Z.to_nat (clamp 0 (len s) from) in
  indexOfLoop (S (length s - k)) s needle k.

(** [s.lastIndexOf(needle)]: candidates [k = s.length, s.length - 1, ..., 0]. *)
Fixpoint lastIndexOfLoop (k : nat) (s needle : jsstring) : Z :=
  if (k + length needle <=? length s)%nat && startsWith (drop k s) needle
  then Z.of_nat k
  else match k with
       | O => -1
       | S k' => lastIndexOfLoop k' s needle
       end.

Definition lastIndexOf (s needle : jsstring) : Z :=
  lastIndexOfLoop (length s) s needle.

Fixpoint trimStart (s : jsstring) : jsstring :=
  match s with
  | c :: s' => if isSpace c then trimStart s' else s
  | [] => []
  end.

Definition trim (s : jsstring) : jsstring :=
  rev (trimStart (rev (trimStart s))).

(** The global replacement of every doubled double-quote by a single one,
    left to right. *)
Fixpoint unescapeQuotes (s : jsstring) : jsstring :=
  match s with
  | [] => []
  | a :: rest =>
      match rest with
      | b :: rest' =>
          if (a =? DQUOTE)%N && (b =? DQUOTE)%N
          then DQUOTE :: unescapeQuotes rest'
          else a :: unescapeQuotes rest
      | [] => [a]
      end
  end.

(** [s.split(sep)] for a one-character class [sep] *)
Fixpoint splitOn (sep : N -> bool) (s : jsstring) (cur : jsstring) : list jsstring :=
  match s with
  | [] => [cur]
  | c :: s' => if sep c then cur :: splitOn sep s' [] else splitOn sep s' (cur ++ [c])
  end.

(** [set.add(x)] on a [Set] listed in insertion order *)
Definition setAdd (d : list jsstring) (x : jsstring) : list jsstring :=
  if bool_decide (x ∈ d) then d else d ++ [x].

(** ** Regular expressions

    The backtracking matcher of ECMAScript for the constructs the source
    uses: greedy quantifiers with the empty-iteration check, ordered
    alternation, one capturing group, [\b], [^] and [$]. A continuation
    receives the end position and the capture. *)

Inductive regex :=
| REps
| RChar (p : N -> bool)
| RSeq (r1 r2 : regex)
| RAlt (r1 r2 : regex)
| RStar (r : regex)
| ROpt (r : regex)
| RGroup (r : regex)
| RWordB
| RBol
| REol.

Definition RPlus (r : regex) : regex := RSeq r (RStar r).

Fixpoint rseq (l : list regex) : regex :=
  match l with
  | [] => REps
  | [r] => r
  | r :: l' => RSeq r (rseq l')
  end.

(** A literal, case-sensitive or under the [i] flag. *)
Definition RLit (s : string) : regex := rseq ((fun c => RChar (isChar c)) <$> js s).
Definition RLitCI (s : string) : regex := rseq ((fun c => RChar (isCI c)) <$> js s).

Abbreviation capture := (option (nat * nat)).

Section Matcher.

Variable s : jsstring.
Variable R : Type.

Definition wordAt (i : nat) : bool :=
  match s !! i with Some c => isWord c | None => false end.

Definition wordBefore (i : nat) : bool :=
  match i with O => false | S j => wordAt j end.

Fixpoint rmatch (r : regex) (i : nat) (cap : capture)
  (k : nat -> capture -> option R) {struct r} : option R :=
  match r with
  | REps => k i cap
  | RChar p =>
      match s !! i with
      | Some c => if p c then k (S i) cap else None
      | None => None
      end
  | RSeq r1 r2 => rmatch r1 i cap (fun j c => rmatch r2 j c k)
  | RAlt r1 r2 =>
      match rmatch r1 i cap k with
      | Some x => Some x
      | None => rmatch r2 i cap k
      end
  | RStar r1 =>
      (fix loop (n : nat) (i : nat) (cap : capture) {struct n} : option R :=
         match n with
         | O => k i cap
         | S n' =>
             match rmatch r1 i cap
                     (fun j c => if (i <? j)%nat then loop n' j c else None) with
             | Some x => Some x
             | None => k i cap
             end
         end) (length s - i)%nat i cap
  | ROpt r1 =>
      match rmatch r1 i cap (fun j c => if (i <? j)%nat then k j c else None) with
      | Some x => Some x
      | None => k i cap
      end
  | RGroup r1 => rmatch r1 i cap (fun j _ => k j (Some (i, j)))
  | RWordB => if xorb (wordBefore i) (wordAt i) then k i cap else None
  | RBol => if (i =? 0)%nat then k i cap else None
  | REol => if (i =? length s)%nat then k i cap else None
  end.

End Matcher.

(** A successful match: [m.index], the end of the match (the next
    [lastIndex] of a global regex) and the capture [m[1]]. *)
Record rematch := { m_index : nat; m_end : nat; m_cap : capture }.

Definition matchAt (r : regex) (s : jsstring) (i : nat) : option rematch :=
  rmatch s rematch r i None
    (fun j c => Some {| m_index := i; m_end := j; m_cap := c |}).

(** [re.exec(s)] with [lastIndex = i]: the leftmost start from [i] on. *)
Fixpoint execLoop (fuel : nat) (r : regex) (s : jsstring) (i : nat) : option rematch :=
  match matchAt r s i with
  | Some m => Some m
  | None =>
      match fuel with
      | O => None
      | S f => execLoop f r s (S i)
      end
  end.

Definition exec (r : regex) (s : jsstring) (lastIndex : nat) : option rematch :=
  if (lastIndex <=? length s)%nat
  then execLoop (length s - lastIndex) r s lastIndex
  else None.

(** [while ((m = re.exec(s)) !== null)] for a global regex: the matches in
    order. Every regex iterated in the source consumes at least one code
    unit per match, so the next search starts strictly further right. *)
Fixpoint execAllLoop (fuel : nat) (r : regex) (s : jsstring) (lastIndex : nat)
  : list rematch :=
  match fuel with
  | O => []
  | S f =>
      match exec r s lastIndex with
      | None => []
      | Some m => m :: execAllLoop f r s (m_end m)
      end
  end.

Definition execAll (r : regex) (s : jsstring) : list rematch :=
  execAllLoop (S (length s)) r s 0.

(** [re.test(s)] and [s.match(re)] of a regex without the [g] flag *)
Definition test (r : regex) (s : jsstring) : bool :=
  bool_decide (is_Some (exec r s 0)).

(** The text of the whole match and of the group. *)
Definition matched (s : jsstring) (m : rematch) : jsstring :=
  take (m_end m - m_index m) (drop (m_index m) s).

Definition group1 (s : jsstring) (m : rematch) : jsstring :=
  match m_cap m with
  | Some (a, b) => take (b - a) (drop a s)
  | None => []
  end.

(** [s.replace(re, '')] for a regex without the [g] flag *)
Definition removeFirst (r : regex) (s : jsstring) : jsstring :=
  match exec r s 0 with
  | Some m => take (m_index m) s ++ drop (m_end m) s
  | None => s
  end.

(** ** Query source analyzer *)

Module Query.
Record t := {
  name : jsstring;
  code : jsstring;
  fileName : jsstring;
  dependencies : list jsstring;
  externalRefs : option (list jsstring)   (* absent on connection-only queries *)
}.
End Query.

(** The loops of [stripCS]: the outer loop is [InCode]; the four inner
    loops are entered after their opening delimiter has been copied or
    blanked ([InLine] is entered on the first slash itself). *)
Inductive stripMode := InCode | InQuotedId | InString | InBlock | InLine.

Fixpoint stripLoop (mode : stripMode) (code : jsstring) : jsstring :=
  match code with
  | [] => []
  | c :: rest =>
      let next := match rest with d :: _ => Some d | [] => None end in
      let rest' := match rest with _ :: r => r | [] => [] end in
      let keepLF := if (c =? LF)%N then LF else SPACE in
      match mode with
      | InCode =>
          if (c =? chr "#")%N && bool_decide (next = Some DQUOTE) then
            match rest with
            | _ :: r => chr "#" :: DQUOTE :: stripLoop InQuotedId r
            | [] => [c]
            end
          else if (c =? DQUOTE)%N then SPACE :: stripLoop InString rest
          else if (c =? chr "/")%N && bool_decide (next = Some (chr "*")) then
            match rest with
            | _ :: r => SPACE :: SPACE :: stripLoop InBlock r
            | [] => [c]
            end
          else if (c =? chr "/")%N && bool_decide (next = Some (chr "/")) then
            SPACE :: stripLoop InLine rest
          else c :: stripLoop InCode rest
      | InQuotedId =>
          if (c =? DQUOTE)%N && bool_decide (next = Some DQUOTE) then
            match rest with
            | _ :: r => DQUOTE :: DQUOTE :: stripLoop InQuotedId r
            | [] => [c]
            end
          else if (c =? DQUOTE)%N then DQUOTE :: stripLoop InCode rest
          else c :: stripLoop InQuotedId rest
      | InString =>
          if (c =? DQUOTE)%N && bool_decide (next = Some DQUOTE) then
            match rest with
            | _ :: r => SPACE :: SPACE :: stripLoop InString r
            | [] => [c]
            end
          else if (c =? DQUOTE)%N then SPACE :: stripLoop InCode rest
          else keepLF :: stripLoop InString rest
      | InBlock =>
          if (c =? chr "*")%N && bool_decide (next = Some (chr "/")) then
            match rest with
            | _ :: r => SPACE :: SPACE :: stripLoop InCode r
            | [] => [c]
            end
          else keepLF :: stripLoop InBlock rest
      | InLine =>
          (* the line feed ends the loop and is copied by the outer loop *)
          if (c =? LF)%N then LF :: stripLoop InCode rest
          else SPACE :: stripLoop InLine rest
      end
  end.

Definition stripCS (code : jsstring) : jsstring := stripLoop InCode code.

(** The scan text of [findDeps]: the content of every quoted identifier is
    blanked, so that the word regex finds no identifier inside it. *)
Fixpoint scanLoop (inQuoted : bool) (sc : jsstring) : jsstring :=
  match sc with
  | [] => []
  | c :: rest =>
      let next := match rest with d :: _ => Some d | [] => None end in
      if inQuoted then
        if (c =? DQUOTE)%N && bool_decide (next = Some DQUOTE) then
          match rest with
          | _ :: r => SPACE :: SPACE :: scanLoop true r
          | [] => [c]
          end
        else if (c =? DQUOTE)%N then DQUOTE :: scanLoop false rest
        else (if (c =? LF)%N then LF else SPACE) :: scanLoop true rest
      else
        if (c =? chr "#")%N && bool_decide (next = Some DQUOTE) then
          match rest with
          | _ :: r => chr "#" :: DQUOTE :: scanLoop true r
          | [] => [c]
          end
        else c :: scanLoop false rest
  end.

Definition MKW : list jsstring := js <$>
  ["let"; "in"; "if"; "then"; "else"; "true"; "false"; "null"; "and"; "or";
   "not"; "each"; "error"; "try"; "otherwise"; "type"; "is"; "as"; "meta";
   "section"; "shared"; "Table"; "List"; "Record"; "Text"; "Number"; "Date";
   "DateTime"; "DateTimeZone"; "Duration"; "Time"; "Function"; "Binary";
   "Csv"; "Json"; "Xml"; "Excel"; "Sql"; "OData"; "Web"; "File"; "Folder";
   "Lines"; "Splitter"; "Comparer"; "Combiner"; "Replacer"; "Expression";
   "Error"; "Value"; "Type"; "Action"; "Uri"; "Byte"; "Currency";
   "Percentage"; "Int8"; "Int16"; "Int32"; "Int64"; "Single"; "Double";
   "Decimal"; "Logical"; "Access"; "ActiveDirectory"; "AdobeAnalytics";
   "AdoDotNet"; "AnalysisServices"; "AzureStorage"; "DB2"; "Cube";
   "Diagnostics"; "Exchange"; "Facebook"; "GoogleAnalytics"; "Hdfs";
   "Informix"; "MySQL"; "Odbc"; "OleDb"; "Oracle"; "PDF"; "PostgreSQL";
   "Salesforce"; "SapBusinessWarehouse"; "SapHana"; "SharePoint"; "Sybase";
   "Teradata"; "Power"; "Any"; "Source"; "Navigation"; "Data"; "Schema";
   "Item"]%string.

(** The regular expressions of the analyzer. [Q] stands for the double
    quote in the comments below. *)

(** [[^Q]* (?: QQ [^Q]* )*], written here with spaces between the parts *)
Definition reQuotedBody : regex :=
  RSeq (RStar (RChar (notChar DQUOTE)))
       (RStar (rseq [RChar (isChar DQUOTE); RChar (isChar DQUOTE);
                     RStar (RChar (notChar DQUOTE))])).

(** [#Q (?: body ) Q] with the body above *)
Definition reQuotedIdent : regex :=
  rseq [RChar (isChar (chr "#")); RChar (isChar DQUOTE); reQuotedBody;
        RChar (isChar DQUOTE)].

(** [[\w_][\w_]*] *)
Definition reBareIdent : regex :=
  RSeq (RChar (fun c => isWord c || (c =? chr "_")%N))
       (RStar (RChar (fun c => isWord c || (c =? chr "_")%N))).

(** [/\bshared \s+ (?: #Q...Q | [\w_][\w_]* ) \s* =/gi] *)
Definition reShared : regex :=
  rseq [RWordB; RLitCI "shared"; RPlus (RChar isSpace);
        RAlt reQuotedIdent reBareIdent; RStar (RChar isSpace);
        RChar (isChar (chr "="))].

(** [/^shared \s+ ( #Q...Q | [\w_][\w_]* ) \s* =/i] *)
Definition reSharedName : regex :=
  rseq [RBol; RLitCI "shared"; RPlus (RChar isSpace);
        RGroup (RAlt reQuotedIdent reBareIdent); RStar (RChar isSpace);
        RChar (isChar (chr "="))].

(** [/\blet\b/i] and [/\bin\b/i] *)
Definition reLet : regex := rseq [RWordB; RLitCI "let"; RWordB].
Definition reIn : regex := rseq [RWordB; RLitCI "in"; RWordB].

(** [/\b ( [A-Za-z_] [\w]* ) \b/g] *)
Definition reIdent : regex :=
  rseq [RWordB;
        RGroup (RSeq (RChar (fun c => inRange 65 90 c || inRange 97 122 c
                                      || (c =? chr "_")%N))
                     (RStar (RChar isWord)));
        RWordB].

(** [/#Q ( (?: body )? ) Q/g] *)
Definition reQuotedRef : regex :=
  rseq [RChar (isChar (chr "#")); RChar (isChar DQUOTE);
        RGroup (ROpt reQuotedBody); RChar (isChar DQUOTE)].

(** [/(?:File|Folder) \.Contents \s* \( \s* ( #Q...Q | Q (?: [^Q] | QQ )* Q ) \s* \)/gi] *)
Definition reFileContents : regex :=
  rseq [RAlt (RLitCI "File") (RLitCI "Folder"); RChar (isChar (chr "."));
        RLitCI "Contents"; RStar (RChar isSpace); RChar (isChar (chr "("));
        RStar (RChar isSpace);
        RGroup (RAlt reQuotedIdent
                  (rseq [RChar (isChar DQUOTE);
                         RStar (RAlt (RChar (notChar DQUOTE))
                                     (RSeq (RChar (isChar DQUOTE))
                                           (RChar (isChar DQUOTE))));
                         RChar (isChar DQUOTE)]));
        RStar (RChar isSpace); RChar (isChar (chr ")"))].

(** [/[?#] .* $/] *)
Definition reQueryFragment : regex :=
  rseq [RChar (fun c => (c =? chr "?")%N || (c =? chr "#")%N);
        RStar (RChar (fun c => negb (isLineTerminator c))); REol].

Definition isSlash (c : N) : bool := (c =? chr "\")%N || (c =? chr "/")%N.

(** [/[\\\/]+$/] *)
Definition reTrailingSlashes : regex := rseq [RPlus (RChar isSlash); REol].

(** [scan[k]] compared with a character: [undefined] equals none. *)
Definition charAtIs (s : jsstring) (k : nat) (c : N) : bool :=
  bool_decide (s !! k = Some c).

Definition findDeps (sc self : jsstring) : list jsstring :=
  let scan := scanLoop false sc in
  let d : list jsstring := [] in
  let d :=
    fold_left (fun d m =>
      let id := group1 scan m in
      if negb (bool_decide (id = self)) && negb (bool_decide (id ∈ MKW))
         && negb (test (RSeq RBol (RChar isDigit)) id)
         && negb (charAtIs scan (m_index m + length id) (chr "."))
      then setAdd d id else d)
      (execAll reIdent scan) d in
  let d :=
    fold_left (fun d m =>
      let id := unescapeQuotes (group1 sc m) in
      if negb (bool_decide (id = self)) then setAdd d id else d)
      (execAll reQuotedRef sc) d in
  d.

Definition findExternalFileRefs (code : jsstring) : list jsstring :=
  fold_left (fun refs m =>
    let lit := group1 code m in
    let p :=
      if startsWith lit (js "#" ++ [DQUOTE])
      then unescapeQuotes (sliceStr lit 2 (-1))
      else unescapeQuotes (sliceStr lit 1 (-1)) in
    let s := splitOn isSlash
               (removeFirst reTrailingSlashes (removeFirst reQueryFragment p)) [] in
    let base := match last s with
                | Some (c :: b) => c :: b
                | _ => p
                end in
    match base with
    | _ :: _ => setAdd refs base
    | [] => refs
    end)
    (execAll reFileContents code) [].

(** [mCode.replace(/^\uFEFF/, '')] *)
Definition stripBOM (mCode : jsstring) : jsstring :=
  match mCode with
  | c :: rest => if (c =? 0xFEFF)%N then rest else mCode
  | [] => []
  end.

(** Body of the loop of [parseMCodeFile] over the boundaries [pos]: the
    chunk from [s] to [e], appended to [q] unless the name does not match. *)
Definition parseChunk (code stripped fn : jsstring) (s e : Z) (q : list Query.t)
  : list Query.t :=
  let chunk := substring code s e in
  let sc := substring stripped s e in
  match exec reSharedName chunk 0 with
  | None => q
  | Some nm =>
      let nm1 := group1 chunk nm in
      let name :=
        if startsWith nm1 (js "#" ++ [DQUOTE])
        then unescapeQuotes (sliceStr nm1 2 (-1))
        else nm1 in
      let eq := indexOf chunk (js "=") (indexOf chunk nm1 0 + len nm1) in
      let sb := substringFrom sc (eq + 1) in
      let ls := lastIndexOf sb (js ";") in
      let qc :=
        if negb (ls =? -1)
        then trim (substring chunk (eq + 1) ((eq + 1) + ls))
        else trim (substringFrom chunk (eq + 1)) in
      q ++ [{| Query.name := name; Query.code := qc; Query.fileName := fn;
               Query.dependencies := findDeps (stripCS qc) name;
               Query.externalRefs := Some (findExternalFileRefs qc) |}]
  end.

Fixpoint parseChunks (code stripped fn : jsstring) (pos : list nat) (q : list Query.t)
  : list Query.t :=
  match pos with
  | [] => q
  | s :: rest =>
      let e := match rest with
               | s' :: _ => Z.of_nat s'
               | [] => len code
               end in
      parseChunks code stripped fn rest
        (parseChunk code stripped fn (Z.of_nat s) e q)
  end.

Definition parseMCodeFile (mCode fn : jsstring) : list Query.t :=
  let code := stripBOM mCode in
  let stripped := stripCS code in
  let pos := m_index <$> execAll reShared stripped in
  let q := parseChunks code stripped fn pos [] in
  match q with
  | [] =>
      if test reLet stripped && test reIn stripped
      then [{| Query.name := js "Query1"; Query.code := trim mCode;
               Query.fileName := fn;
               Query.dependencies := findDeps stripped (js "Query1");
               Query.externalRefs := Some (findExternalFileRefs mCode) |}]
      else []
  | _ :: _ => q
  end.

(** ** Container format resolver *)

(** [b[o]] where [undefined] is read as 0 by the bitwise operators. *)
Definition byteOr0 (b : list byte) (o : Z) : Z := default 0 (byteAt b o).

Definition readU32 (b : list byte) (o : Z) : Z :=
  Z.lor (Z.lor (Z.lor (byteOr0 b o) (js_shl (byteOr0 b (o + 1)) 8))
               (js_shl (byteOr0 b (o + 2)) 16))
        (js_shl (byteOr0 b (o + 3)) 24) mod 2 ^ 32.

(** [b[i]===0x50 && b[i+1]===0x4B && b[i+2]===0x03 && b[i+3]===0x04]: the
    local-file-header signature of the nested archive at offset [i]. *)
Definition signatureAt (b : list byte) (i : Z) : bool :=
  bool_decide (byteAt b i = Some 0x50)
  && bool_decide (byteAt b (i + 1) = Some 0x4B)
  && bool_decide (byteAt b (i + 2) = Some 0x03)
  && bool_decide (byteAt b (i + 3) = Some 0x04).

(** [for (let i = 0; i < b.length - 4; i++)] of [findPK] *)
Fixpoint findPKLoop (fuel : nat) (b : list byte) (i : Z) : Z :=
  match fuel with
  | O => -1
  | S f =>
      if i <? len b - 4 then
        if signatureAt b i then i else findPKLoop f b (i + 1)
      else -1
  end.

Definition findPK (b : list byte) : Z := findPKLoop (length b) b 0.

(** An entry of an opened archive and the archive itself, in the order of
    [Object.entries(zip.files)]. *)
Record ZipEntry := {
  dir : bool;
  asyncString : result jsstring;
  asyncArrayBuffer : result (list byte)
}.

Abbreviation Zip := (list (jsstring * ZipEntry)).

(** [zip.files[name]] *)
Fixpoint zipFile (zip : Zip) (name : jsstring) : option ZipEntry :=
  match zip with
  | [] => None
  | (p, e) :: rest => if bool_decide (p = name) then Some e else zipFile rest name
  end.

Definition qkey (q : Query.t) : jsstring :=
  Query.fileName q ++ js "::" ++ Query.name q.

(** [if (!seen.has(k)) { seen.add(k); queries.push(q); }] on the state
    [(queries, seen)] *)
Definition pushUnique (st : list Query.t * gset jsstring) (q : Query.t)
  : list Query.t * gset jsstring :=
  let k := qkey q in
  if bool_decide (k ∈ st.2) then st else (st.1 ++ [q], {[k]} ∪ st.2).

(** [addUnique(nq)] of [parseXlsxFile] and [parsePbixFile] *)
Definition addUnique (st : list Query.t * gset jsstring) (nq : list Query.t)
  : list Query.t * gset jsstring :=
  fold_left pushUnique nq st.

Definition extractMCodeFromZip (z : Zip) (fn : jsstring) : list Query.t :=
  (fold_left (fun st pe =>
     let '(p, e) := pe in
     if startsWith p (js "Formulas/") && endsWith p (js ".m") && negb (dir e) then
       match asyncString e with
       | Ok text => fold_left pushUnique (parseMCodeFile text fn) st
       | Throw _ => st
       end
     else st) z ([], ∅)).1.

(** The state of a parser run: [((queries, seen), errors)]. *)
Abbreviation pstate := (list Query.t * gset jsstring * list jsstring)%type.

Section Container.

(** [JSZip.loadAsync], which rejects on bytes that are no archive. *)
Variable loadAsync : list byte -> result Zip.

Definition extractFromDataMashup (buf : list byte) (fn : jsstring)
  : result (list Query.t) :=
  let q : list Query.t := [] in
  let b := buf in
  if len b <? 8 then Ok q
  else
    (* Structured MS-QDEFF: version(4) + pkgLen(4) + ZIP(pkgLen) *)
    q ← try_catch
          (let v := readU32 b 0 in
           let n := readU32 b 4 in
           if (v =? 0) && (0 <? n) && (n <=? len b - 8) then
             z ← loadAsync (slice b 8 (8 + n));
             Ok (q ++ extractMCodeFromZip z fn)
           else Ok q)
          (fun _ => Ok q);
    (* Fallback: scan for PK signature *)
    q ← (if len q =? 0 then
           let s := findPK b in
           if 0 <=? s then
             try_catch
               (z ← loadAsync (drop (Z.to_nat s) b);
                Ok (q ++ extractMCodeFromZip z fn))
               (fun _ => Ok q)
           else Ok q
         else Ok q);
    Ok q.

(** *** The schema path of a BI package *)

(** The [expression] property of a partition source or of a top-level
    expression: a string, an array of lines, or absent. *)
Inductive mexpr :=
| ExprText (s : jsstring)
| ExprLines (l : list jsstring)
| ExprNone.

Record Partition := { sourceType : option jsstring; partExpression : mexpr }.
Record SchemaTable := { tableName : jsstring; partitions : list Partition }.
Record SchemaExpression := { exprName : jsstring; exprExpression : mexpr }.
Record SchemaModel := {
  tables : list SchemaTable;
  expressions : list SchemaExpression
}.

(** [arr.join('\n')] *)
Fixpoint joinLines (l : list jsstring) : jsstring :=
  match l with
  | [] => []
  | [x] => x
  | x :: l' => x ++ LF :: joinLines l'
  end.

(** [if (Array.isArray(expr)) expr = expr.join('\n')] *)
Definition exprText (e : mexpr) : jsstring :=
  match e with
  | ExprText s => s
  | ExprLines l => joinLines l
  | ExprNone => []
  end.

(** The text decoder and [JSON.parse] in front of the schema walk. *)
Variable parseSchemaJson : list byte -> result SchemaModel.

(** The shared tail of both loops of [extractFromDataModelSchema]:
    skip an empty expression or a name already seen, else push. *)
Definition pushSchemaQuery (fn : jsstring) (name : jsstring) (expr : jsstring)
  (st : list Query.t * gset jsstring) : list Query.t * gset jsstring :=
  match expr with
  | [] => st
  | _ :: _ =>
      if bool_decide (name ∈ st.2) then st
      else (st.1 ++ [{| Query.name := name; Query.code := trim expr;
                        Query.fileName := fn;
                        Query.dependencies := findDeps (stripCS expr) name;
                        Query.externalRefs := Some (findExternalFileRefs expr) |}],
            {[name]} ∪ st.2)
  end.

Definition schemaQueries (model : SchemaModel) (fn : jsstring) : list Query.t :=
  let st : list Query.t * gset jsstring := ([], ∅) in
  (* Extract from table partitions (source type 'm') *)
  let st :=
    fold_left (fun st t =>
      fold_left (fun st p =>
        if bool_decide (sourceType p = Some (js "m"))
        then pushSchemaQuery fn (tableName t) (exprText (partExpression p)) st
        else st) (partitions t) st) (tables model) st in
  (* Extract from top-level expressions *)
  let st :=
    fold_left (fun st e =>
      pushSchemaQuery fn (exprName e) (exprText (exprExpression e)) st)
      (expressions model) st in
  st.1.

Definition extractFromDataModelSchema (buf : list byte) (fn : jsstring)
  : result (list Query.t) :=
  model ← parseSchemaJson buf;
  Ok (schemaQueries model fn).

(** *** The data-model path of a BI package *)

(** An entry returned by [readMCodeFromSQLite]; [None] is a value that is
    not a string. *)
Record MEntry := { entryName : option jsstring; mCode : option jsstring }.

(** Decompression, catalog lookup and page reading in front of the map. *)
Variable readDataModelEntries : list byte -> result (list MEntry).

Definition entryQuery (fileName : jsstring) (e : MEntry) : Query.t :=
  let name :=
    match entryName e with
    | Some n => match trim n with _ :: _ => n | [] => js "Query" end
    | None => js "Query"
    end in
  let code := default [] (mCode e) in
  {| Query.name := name; Query.code := code; Query.fileName := fileName;
     Query.dependencies := findDeps (stripCS code) name;
     Query.externalRefs := Some (findExternalFileRefs code) |}.

Definition extractFromDataModel (dataModelArrayBuffer : list byte) (fileName : jsstring)
  : result (list Query.t) :=
  mEntries ← readDataModelEntries dataModelArrayBuffer;
  Ok (map (entryQuery fileName) mEntries).

(** *** The two container parsers *)

(** The XML-island path and the connections descriptor, both behind
    platform decoders ([TextDecoder], [atob], [DOMParser]). *)
Variable extractFromCustomXml : list byte -> jsstring -> result (list Query.t).
Variable parseConnectionsXml : jsstring -> jsstring -> result (list Query.t).

(** [typeof extractFromDataModel === 'function'] *)
Variable hasDataModelDecoder : bool.

Record ParseResult := { queries : list Query.t; errors : list jsstring }.

(** [try { addUnique(batch) } catch (e) { errors.push(label + e.message) }];
    without a label the catch block is empty. *)
Definition tryAdd (st : pstate) (batch : result (list Query.t)) (label : option jsstring)
  : pstate :=
  match batch with
  | Ok nq => (addUnique st.1 nq, st.2)
  | Throw m =>
      match label with
      | Some l => (st.1, st.2 ++ [l ++ js m])
      | None => st
      end
  end.

(** [/customXml\/item\d*\.xml$/i] *)
Definition reCustomXmlItem : regex :=
  rseq [RLitCI "customXml/item"; RStar (RChar isDigit); RChar (isChar (chr "."));
        RLitCI "xml"; REol].

Definition parseXlsxFile (fileName : jsstring) (file : list byte) : result ParseResult :=
  zip ← loadAsync file;
  let st : pstate := ([], ∅, []) in
  let st :=
    fold_left (fun st pe =>
      let '(p, ze) := pe in
      if startsWith p (js "customXml/") && endsWith p (js ".bin")
      then tryAdd st (buf ← asyncArrayBuffer ze; extractFromDataMashup buf fileName)
                  (Some (p ++ js ": "))
      else st) zip st in
  let st :=
    fold_left (fun st pe =>
      let '(p, ze) := pe in
      if test reCustomXmlItem p
      then tryAdd st (buf ← asyncArrayBuffer ze; extractFromCustomXml buf fileName) None
      else st) zip st in
  let st :=
    if len st.1.1 =? 0 then
      match zipFile zip (js "xl/connections.xml") with
      | Some ze => tryAdd st (xml ← asyncString ze; parseConnectionsXml xml fileName)
                          (Some (js "connections.xml: "))
      | None => st
      end
    else st in
  Ok {| queries := st.1.1; errors := st.2 |}.

Definition parsePbixFile (fileName : jsstring) (file : list byte) : result ParseResult :=
  zip ← loadAsync file;
  let st : pstate := ([], ∅, []) in
  (* Path 1: DataMashup as a top-level file *)
  let dmEntry :=
    match zipFile zip (js "DataMashup") with
    | Some e => Some e
    | None => zipFile zip (js "datamashup")
    end in
  let st :=
    match dmEntry with
    | Some ze => tryAdd st (buf ← asyncArrayBuffer ze; extractFromDataMashup buf fileName)
                        (Some (js "DataMashup: "))
    | None => st
    end in
  (* Path 2: DataModelSchema JSON *)
  let st :=
    if len st.1.1 =? 0 then
      match zipFile zip (js "DataModelSchema") with
      | Some ze => tryAdd st (buf ← asyncArrayBuffer ze;
                              extractFromDataModelSchema buf fileName)
                          (Some (js "DataModelSchema: "))
      | None => st
      end
    else st in
  (* Path 3: DataModel (XPress9-compressed ABF) *)
  let st :=
    if len st.1.1 =? 0 then
      match zipFile zip (js "DataModel") with
      | Some ze =>
          if hasDataModelDecoder
          then tryAdd st (dmData ← asyncArrayBuffer ze; extractFromDataModel dmData fileName)
                      (Some (js "DataModel: "))
          else (st.1, st.2 ++ [js "DataModel decoder not available. This file uses compressed V3 format."])
      | None => st
      end
    else st in
  Ok {| queries := st.1.1; errors := st.2 |}.

End Container.

(** ** Compression frame decoder *)

(** Calls into the XPress9 library made by the wrapper, with the decoder
    they act on. [DecoderDecode] stands for the attach, fetch and detach
    calls of one block. *)
Inductive libcall :=
| DecoderCreate (id : nat)
| DecoderStartSession (id : nat)
| DecoderDecode (id : nat) (src : list byte)
| DecoderDestroy (id : nat).

(** The state of the wrapper module: the global [g_decoder] (the number of
    the live decoder, [None] for NULL), the number of decoders requested so
    far, and the library calls made so far. *)
Record Wasm := {
  g_decoder : option nat;
  created : nat;
  calls : list libcall
}.

Section Xpress9.

(** The library: whether the [n]-th [Xpress9DecoderCreate] returns NULL
    ([None]) or a decoder with an OK status or not, whether its session
    starts, and the bytes a decoder writes for a block given all calls made
    before (empty when the library reports an error or produces nothing). *)
Variable createResult : nat -> option bool.
Variable startResult : nat -> bool.
Variable decodeResult : list libcall -> nat -> list byte -> Z -> list byte.

Definition xpress9_init (w : Wasm) : Wasm * Z :=
  match g_decoder w with
  | Some _ => (w, 1)
  | None =>
      let id := created w in
      match createResult id with
      | None =>
          ({| g_decoder := None; created := S id;
              calls := calls w ++ [DecoderCreate id] |}, 0)
      | Some false =>
          ({| g_decoder := Some id; created := S id;
              calls := calls w ++ [DecoderCreate id] |}, 0)
      | Some true =>
          ({| g_decoder := Some id; created := S id;
              calls := calls w ++ [DecoderCreate id; DecoderStartSession id] |},
           if startResult id then 1 else 0)
      end
  end.

(** [xpress9_decompress]: the bytes written to [dst]; their number is the
    returned total. *)
Definition xpress9_decompress (w : Wasm) (src : list byte) (dstLen : Z)
  : Wasm * list byte :=
  match g_decoder w with
  | None => (w, [])
  | Some id =>
      ({| g_decoder := g_decoder w; created := created w;
          calls := calls w ++ [DecoderDecode id src] |},
       decodeResult (calls w) id src dstLen)
  end.

Definition xpress9_free (w : Wasm) : Wasm :=
  match g_decoder w with
  | Some id =>
      {| g_decoder := None; created := created w;
         calls := calls w ++ [DecoderDestroy id] |}
  | None => w
  end.

(** The state threaded through the block loops: the module, the read
    offset and the decompressed chunks. *)
Record Frames := {
  wasm : Wasm;
  offset : Z;
  chunks : list (list byte)
}.

Definition decompressBlock (buf : list byte) (st : Frames) : Wasm * result Frames :=
  match getUint32 buf (offset st), getUint32 buf (offset st + 4) with
  | Ok uncompSize, Ok compSize =>
      let offset := offset st + 8 in
      if (compSize =? 0) || (uncompSize =? 0) || (len buf <? offset + compSize)
      then (wasm st, Ok {| wasm := wasm st; offset := offset; chunks := chunks st |})
      else
        let '(w, out) :=
          xpress9_decompress (wasm st) (slice buf offset (offset + compSize)) uncompSize in
        let chunks := if 0 <? len out then chunks st ++ [out] else chunks st in
        (w, Ok {| wasm := w; offset := offset + compSize; chunks := chunks |})
  | Throw m, _ => (wasm st, Throw m)
  | _, Throw m => (wasm st, Throw m)
  end.

(** [for (let b = 0; b < nBlocks && offset + 8 <= buf.length; b++)]; every
    round advances the offset by at least 8. *)
Fixpoint blocksLoop (fuel : nat) (buf : list byte) (nBlocks b : Z) (st : Frames)
  : Wasm * result Frames :=
  match fuel with
  | O => (wasm st, Ok st)
  | S f =>
      if (b <? nBlocks) && (offset st + 8 <=? len buf) then
        match decompressBlock buf st with
        | (_, Ok st) => blocksLoop f buf nBlocks (b + 1) st
        | (w, Throw m) => (w, Throw m)
        end
      else (wasm st, Ok st)
  end.

(** [for (const nBlocks of groups)] *)
Fixpoint groupsLoop (groups : list Z) (buf : list byte) (st : Frames)
  : Wasm * result Frames :=
  match groups with
  | [] => (wasm st, Ok st)
  | nBlocks :: rest =>
      (* Each thread gets a fresh decoder session *)
      let w := xpress9_free (wasm st) in
      let '(w, ok) := xpress9_init w in
      if ok =? 0 then (w, Throw "XPress9 init failed")
      else
        match blocksLoop (length buf) buf nBlocks 0
                {| wasm := w; offset := offset st; chunks := chunks st |} with
        | (_, Ok st) => groupsLoop rest buf st
        | (w, Throw m) => (w, Throw m)
        end
  end.

(** [while (offset + 8 <= buf.length)] of the single-threaded mode *)
Fixpoint sequentialLoop (fuel : nat) (buf : list byte) (st : Frames)
  : Wasm * result Frames :=
  match fuel with
  | O => (wasm st, Ok st)
  | S f =>
      if offset st + 8 <=? len buf then
        let prevOffset := offset st in
        match decompressBlock buf st with
        | (_, Ok st) =>
            if offset st =? prevOffset then (wasm st, Ok st)
            else sequentialLoop f buf st
        | (w, Throw m) => (w, Throw m)
        end
      else (wasm st, Ok st)
  end.

(** The UTF-16LE signature: code units from the first 102 bytes up to the
    first zero. *)
Fixpoint readSignature (fuel : nat) (buf : list byte) (i : Z) (sig : jsstring) : jsstring :=
  match fuel with
  | O => sig
  | S f =>
      if i <? 102 then
        let ch := Z.lor (byteOr0 buf i) (js_shl (byteOr0 buf (i + 1)) 8) in
        if ch =? 0 then sig
        else readSignature f buf (i + 2) (sig ++ [Z.to_N ch])
      else sig
  end.

(** [sig.includes(needle)] *)
Definition includes (s needle : jsstring) : bool := negb (indexOf s needle 0 =? -1).

Definition isMultiThread (buf : list byte) : bool :=
  includes (readSignature 51 buf 0 []) (js "multithreaded").

(** The thread groups: prefix threads, then main threads. *)
Definition threadGroups (mainChunks prefixChunks prefixThreads mainThreads : Z) : list Z :=
  replicate (Z.to_nat prefixThreads) prefixChunks
  ++ replicate (Z.to_nat mainThreads) mainChunks.

(** The five counters after the signature, in stream order. *)
Definition readCounters (buf : list byte) : result (Z * Z * Z * Z) :=
  let offset := 102 in
  mainChunks ← getU64Number buf offset; let offset := offset + 8 in
  prefixChunks ← getU64Number buf offset; let offset := offset + 8 in
  prefixThreads ← getU64Number buf offset; let offset := offset + 8 in
  mainThreads ← getU64Number buf offset; let offset := offset + 8 in
  _ ← getU64Number buf offset;
  Ok (mainChunks, prefixChunks, prefixThreads, mainThreads).

Definition decompressXpress9 (w : Wasm) (buf : list byte) : Wasm * result (list byte) :=
  let '(w, r) :=
    if isMultiThread buf then
      match readCounters buf with
      | Throw m => (w, Throw m)
      | Ok (mainChunks, prefixChunks, prefixThreads, mainThreads) =>
          groupsLoop (threadGroups mainChunks prefixChunks prefixThreads mainThreads) buf
            {| wasm := w; offset := 102 + 40; chunks := [] |}
      end
    else
      let '(w, ok) := xpress9_init w in
      if ok =? 0 then (w, Throw "XPress9 init failed")
      else sequentialLoop (length buf) buf {| wasm := w; offset := 102; chunks := [] |} in
  match r with
  | Throw m => (w, Throw m)
  | Ok st =>
      let w := xpress9_free (wasm st) in
      (* Concatenate chunks *)
      (w, Ok (concat (chunks st)))
  end.

End Xpress9.

(** ** Definitions used by the statements *)






(** A query whose name is not among its own dependencies. *)
Definition irreflexive_query (q : Query.t) : Prop :=
  Query.name q ∉ Query.dependencies q.

(** The pair that identifies a query. *)
Definition qpair (q : Query.t) : jsstring * jsstring :=
  (Query.fileName q, Query.name q).

(** The state of [addUnique] is coherent: the keys of the queries are
    pairwise distinct and [seen] holds exactly these keys. *)
Definition seen_coherent (st : list Query.t * gset jsstring) : Prop :=
  NoDup (qkey <$> st.1) /\ forall k, k ∈ st.2 <-> k ∈ qkey <$> st.1.

(** The library calls of consecutive decoder sessions: before each
    session the live decoder, if any, is destroyed, a new decoder is
    created and its session started, and every block of the session is
    decoded by that decoder. *)
Definition destroyCall (prev : option nat) : list libcall :=
  match prev with
  | Some d => [DecoderDestroy d]
  | None => []
  end.

Fixpoint sessionsTrace (prev : option nat) (id : nat) (blockss : list (list (list byte)))
  : list libcall :=
  match blockss with
  | [] => []
  | blocks :: rest =>
      destroyCall prev ++ [DecoderCreate id; DecoderStartSession id]
      ++ (DecoderDecode id <$> blocks) ++ sessionsTrace (Some id) (S id) rest
  end.

Definition isDecode (c : libcall) : bool :=
  match c with
  | DecoderDecode _ _ => true
  | _ => false
  end.

(** Example inputs: an index metadata file of zero bytes (minimum id 0, no
    bit-packed ids), an index file holding the single run (7, 2), and a
    table of two columns over them, the first of which names a dictionary
    file [d] that the cache does not hold. *)
Definition exMetaBuf : list byte := replicate 153 x00.

Definition exIdfBuf : list byte :=
  bytes_of [1; 0; 0; 0; 0; 0; 0; 0;  7; 0; 0; 0;  2; 0; 0; 0;
            0; 0; 0; 0; 0; 0; 0; 0].

Definition exColumn (name : string) (dictionary : option string) : Column.t :=
  {| Column.name := js name; Column.idf := js "i";
     Column.dictionary := js <$> dictionary; Column.hidx := None;
     Column.dataType := 6; Column.baseId := 0; Column.magnitude := 1;
     Column.isNullable := false; Column.cardinality := 1 |}.

Definition exSchema : gmap jsstring (list Column.t) :=
  {[ js "T" := [exColumn "Named" (Some "d"); exColumn "Plain" None] ]}.

Definition exCache : gmap jsstring (list byte) :=
  <[ js "imeta" := exMetaBuf ]> {[ js "i" := exIdfBuf ]}.

(** An index file whose sentinel run asks for ten ids where the
    bit-packed word (read with 22-bit fields) holds three: the runs
    (0xFFFFFFFF, 10) and (7, 2), and the word 0x200000400000. *)
Definition exOverrunIdf : list byte :=
  bytes_of [2; 0; 0; 0; 0; 0; 0; 0;
            255; 255; 255; 255;  10; 0; 0; 0;
            7; 0; 0; 0;  2; 0; 0; 0;
            1; 0; 0; 0; 0; 0; 0; 0;
            0; 0; 0x40; 0; 0; 0x20; 0; 0].

(** The single-query module text
    [shared Orders = let Source = Sql.Database(Q s Q , Q d Q) in Source;]
    (with [Q] the double quote and without the spaces around it) and the
    body of its query. *)
Definition exOrdersBody : jsstring :=
  js "let Source = Sql.Database(" ++ [DQUOTE] ++ js "s" ++ [DQUOTE] ++ js ","
  ++ [DQUOTE] ++ js "d" ++ [DQUOTE] ++ js ") in Source".

Definition exOrders : jsstring := js "shared Orders = " ++ exOrdersBody ++ js ";".

(** A module whose query name is a quoted identifier and whose body
    mentions that same identifier:
    [shared #Q My Q Q = #Q My Q Q & Other;] *)
Definition exQuotedSelf : jsstring :=
  js "shared #" ++ [DQUOTE] ++ js "My Q" ++ [DQUOTE] ++ js " = #" ++ [DQUOTE]
  ++ js "My Q" ++ [DQUOTE] ++ js " & Other;".

(** The queries the extraction paths build: the module parser (shared
    segmentation and the anonymous fallback), the schema path and the
    data-model path. *)
Inductive produced : Query.t -> Prop :=
| produced_by_module (mCode fn : jsstring) (q : Query.t) :
    q ∈ parseMCodeFile mCode fn -> produced q
| produced_by_schema (model : SchemaModel) (fn : jsstring) (q : Query.t) :
    q ∈ schemaQueries model fn -> produced q
| produced_by_data_model (fileName : jsstring) (e : MEntry) :
    produced (entryQuery fileName e).

(** A toy archive reader: bytes that start with the local-file-header
    signature open as an archive holding the example module; the one-byte
    file [exWorkbook] opens as a workbook with two binary parts that both
    hold the example envelope; everything else is rejected. *)
Definition exInnerZip : Zip :=
  [ (js "Formulas/Section1.m",
     {| dir := false; asyncString := Ok exOrders; asyncArrayBuffer := Ok [] |}) ].

(** A malformed envelope: version 0, length 65535, four more bytes, then
    the signature at offset 12. *)
Definition exMashup : list byte :=
  bytes_of [0; 0; 0; 0;  255; 255; 0; 0;  0; 0; 0; 0;
            0x50; 0x4B; 0x03; 0x04;  20; 0; 0; 0].

Definition exWorkbook : list byte := bytes_of [1].

Definition exOuterZip : Zip :=
  [ (js "customXml/item1.bin",
     {| dir := false; asyncString := Throw "binary"; asyncArrayBuffer := Ok exMashup |});
    (js "customXml/item2.bin",
     {| dir := false; asyncString := Throw "binary"; asyncArrayBuffer := Ok exMashup |}) ].

Definition exLoadAsync (b : list byte) : result Zip :=
  if signatureAt b 0 then Ok exInnerZip
  else if bool_decide (b = exWorkbook) then Ok exOuterZip
  else Throw "not an archive".

Definition exOrdersQuery (fn : jsstring) : Query.t :=
  {| Query.name := js "Orders"; Query.code := exOrdersBody; Query.fileName := fn;
     Query.dependencies := [js "Database"]; Query.externalRefs := Some [] |}.

(** A multi-threaded stream: the signature, the counters (one main block,
    one prefix block, one prefix thread, one main thread) and two blocks
    of two compressed bytes each. *)
Definition exSignature : list byte :=
  let units := (fun c => [byte_of_Z (Z.of_N c); x00]) <$> js "multithreaded" in
  let sig := concat units in
  sig ++ replicate (102 - length sig) x00.

Definition exStream : list byte :=
  exSignature
  ++ bytes_of [1; 0; 0; 0; 0; 0; 0; 0;  1; 0; 0; 0; 0; 0; 0; 0;
               1; 0; 0; 0; 0; 0; 0; 0;  1; 0; 0; 0; 0; 0; 0; 0;
               0; 0; 0; 0; 0; 0; 0; 0]
  ++ bytes_of [4; 0; 0; 0;  2; 0; 0; 0;  0xAA; 0xBB]
  ++ bytes_of [4; 0; 0; 0;  2; 0; 0; 0;  0xCC; 0xDD].

Definition exWasm : Wasm := {| g_decoder := None; created := 0; calls := [] |}.


(** ** Definitions used by the further properties *)

(** What [stripCS] may do to one character: keep it, or blank it to a
    space when it is not a line feed. *)
Definition keptOrBlanked (c o : N) : Prop := o = c \/ (o = SPACE /\ c <> LF).

(** A query that carries the name of the container it was found in. *)
Definition from_container (fn : jsstring) (q : Query.t) : Prop := Query.fileName q = fn.

(** A well-formed envelope: version 0, length 5, and five bytes that open
    with the local-file-header signature. *)
Definition exEnvelope : list byte :=
  bytes_of [0; 0; 0; 0;  5; 0; 0; 0;  0x50; 0x4B; 0x03; 0x04; 20].

(** A buffer too short to hold the two envelope fields. *)
Definition exShort : list byte := bytes_of [0x50; 0x4B; 0x03; 0x04; 20; 0].

(** A toy BI package: its archive holds a [DataMashup] part with the
    example envelope, a schema part and a data-model part. *)
Definition exPackageZip : Zip :=
  [ (js "DataMashup",
     {| dir := false; asyncString := Throw "binary"; asyncArrayBuffer := Ok exMashup |});
    (js "DataModelSchema",
     {| dir := false; asyncString := Throw "binary"; asyncArrayBuffer := Ok [] |});
    (js "DataModel",
     {| dir := false; asyncString := Throw "binary"; asyncArrayBuffer := Ok [] |}) ].

Definition exLoadPackage (b : list byte) : result Zip :=
  if signatureAt b 0 then Ok exInnerZip
  else if bool_decide (b = exWorkbook) then Ok exPackageZip
  else Throw "not an archive".

(** The state of the schema walk is coherent: the names of the queries
    are pairwise distinct and [seen] holds exactly these names. *)
Definition names_coherent (st : list Query.t * gset jsstring) : Prop :=
  NoDup (Query.name <$> st.1) /\ forall n, n ∈ st.2 <-> n ∈ Query.name <$> st.1.

(** The names a schema offers: its table names and expression names. *)
Definition schemaNames (model : SchemaModel) : list jsstring :=
  (tableName <$> tables model) ++ (exprName <$> expressions model).

(** A schema with a table of two partitions and an expression that
    bears the name of the table. *)
Definition exSchemaModel : SchemaModel :=
  {| tables :=
       [ {| tableName := js "Orders";
            partitions :=
              [ {| sourceType := Some (js "m"); partExpression := ExprText exOrdersBody |};
                {| sourceType := Some (js "m"); partExpression := ExprText (js "1") |} ] |} ];
     expressions :=
       [ {| exprName := js "Orders"; exprExpression := ExprText (js "2") |};
         {| exprName := js "Limit"; exprExpression := ExprLines [js "let"; js "x = 1 in x"] |} ] |}.





(** The longest column, as [extractTableData] computes it. *)
Definition longest {A} (columnData : list (list A)) : Z :=
  fold_left (fun max c => Z.max max (len c)) columnData 0.

(** A table whose second column has an index file that is cut off, and
    one whose second column has no meta file. *)
Definition exCutColumn : Column.t :=
  {| Column.name := js "Cut"; Column.idf := js "c";
     Column.dictionary := None; Column.hidx := None;
     Column.dataType := 6; Column.baseId := 0; Column.magnitude := 1;
     Column.isNullable := false; Column.cardinality := 1 |}.

Definition exLostColumn : Column.t :=
  {| Column.name := js "Lost"; Column.idf := js "l";
     Column.dictionary := None; Column.hidx := None;
     Column.dataType := 6; Column.baseId := 0; Column.magnitude := 1;
     Column.isNullable := false; Column.cardinality := 1 |}.

Definition exCutCache : gmap jsstring (list byte) :=
  <[ js "cmeta" := exMetaBuf ]> (<[ js "c" := bytes_of [1; 0; 0] ]> exCache).

Definition exDictColumn : Column.t := exColumn "Named" (Some "d").

Definition exDictCache : gmap jsstring (list byte) :=
  <[ js "d" := bytes_of [0] ]> exCache.

(** The two's-complement value of a big-endian byte string. *)
Definition signedBE (bs : list byte) : Z :=
  let u := be_combine bs in
  if u <? 2 ^ (8 * len bs - 1) then u else u - 2 ^ (8 * len bs).


(** The value of a variable-length integer: seven bits per byte, the
    most significant group first. *)
Definition varintValue (bs : list byte) : Z :=
  fold_left (fun acc b => acc * 128 + u8 b mod 128) bs 0.

(** A single-threaded stream: an empty signature and one block of two
    compressed bytes. *)
Definition exSingleStream : list byte :=
  replicate 102 x00 ++ bytes_of [2; 0; 0; 0;  2; 0; 0; 0;  0xAA; 0xBB].

(** ** Helpers of the user interface and of the exports *)

(** [t.replace(/c/g, by)] for a single character [c] and a replacement
    text without dollar patterns. *)
Definition replaceAllChar (c : N) (by_ : jsstring) (t : jsstring) : jsstring :=
  flat_map (fun x => if (x =? c)%N then by_ else [x]) t.

Definition AMP : N := 38.
Definition LT : N := 60.
Definition GT : N := 62.
Definition APOS : N := 39.

(** [escapeHtml(t)]; [None] is a value that is not a string. *)
Definition escapeHtml (t : option jsstring) : jsstring :=
  match t with
  | None => []
  | Some t =>
      replaceAllChar APOS (js "&#39;")
        (replaceAllChar DQUOTE (js "&quot;")
           (replaceAllChar GT (js "&gt;")
              (replaceAllChar LT (js "&lt;")
                 (replaceAllChar AMP (js "&amp;") t))))
  end.

(** [ref.replace(/[0-9]/g, '')] *)
Definition lettersOf (ref : jsstring) : jsstring :=
  List.filter (fun c => negb (isDigit c)) ref.

(** [colRefToIndex(ref)]: the column letters of a cell reference as a
    zero-based index. *)
Definition colRefToIndex (ref : jsstring) : Z :=
  let letters := lettersOf ref in
  let idx := fold_left (fun idx c => fl (idx * 26 + (Z.of_N c - 64))) letters 0 in
  fl (idx - 1).

(** An upper-case letter A to Z. *)
Definition isUpper (c : N) : bool := inRange 65 90 c.

(** The Thrift compact-protocol helpers of [buildParquetBuffer]. The loop
    of [writeVarint] runs on an unsigned 32-bit value, which five rounds
    exhaust. *)
Fixpoint writeVarintLoop (fuel : nat) (arr : list Z) (v : Z) : list Z :=
  match fuel with
  | O => arr
  | S k =>
      if 0x7f <? v
      then writeVarintLoop k (arr ++ [Z.lor (Z.land v 0x7f) 0x80]) (Z.shiftr v 7)
      else arr ++ [Z.land v 0x7f]
  end.

Definition writeVarint (arr : list Z) (v : Z) : list Z :=
  let v := v mod 2 ^ 32 in (* v >>> 0 *)
  writeVarintLoop 5 arr v.

Definition writeZigzag (arr : list Z) (v : Z) : list Z :=
  writeVarint arr (toInt32 (Z.lxor (js_shl v 1) (Z.shiftr (toInt32 v) 31))).

(** The number that a little-endian base-128 byte string spells. *)
Definition leb128 (bs : list Z) : Z :=
  foldr (fun b acc => b mod 128 + 128 * acc) 0 bs.

(** A byte string in which every byte but the last has its high bit set. *)
Fixpoint continued (bs : list Z) : Prop :=
  match bs with
  | [] => False
  | [b] => 0 <= b < 128
  | b :: rest => 128 <= b < 256 /\ continued rest
  end.

(** * Properties *)

(** ** Index decoding *)
Lemma len_app {A} (l1 l2 : list A) : len (l1 ++ l2) = len l1 + len l2.
Proof. unfold len. rewrite length_app. lia. Qed.

Lemma len_nonneg {A} (l : list A) : 0 <= len l.
Proof. unfold len. lia. Qed.








Lemma fl_small z : Z.abs z < 2 ^ 53 -> fl z = z.
Proof.
  intros H. unfold fl.
  destruct (Z.abs z <? 2 ^ 53) eqn:E; [done|].
  apply Z.ltb_ge in E. lia.
Qed.














(** A width that does not divide 64: two fields of 22 bits, then the 20
    bits left over. *)
Example unpack_width_22 :
  bitpackedOf {| primarySegment := []; subSegment := [0x200000400000] |}
              {| minDataId := 100; countBitPacked := 3; bitWidth := 22; rowCount := 3 |}
  = Ok [100; 101; 102].
Proof. reflexivity. Qed.

Lemma le_combine_nonneg (l : list byte) : 0 <= le_combine l.
Proof.
  induction l as [|b l IH]; cbn [le_combine]; [lia|]. unfold u8. lia.
Qed.






(** The decoded vector of the example: the three ids that exist, then the
    literal run. *)
Example overrun_example_vector :
  (idfData ← readIdf exOverrunIdf;
   decodeRleBitPackedHybrid idfData
     {| minDataId := 100; countBitPacked := 3; bitWidth := 22; rowCount := 12 |})
  = Ok [Num 100; Num 101; Num 102; Num 7; Num 7].
Proof. vm_compute. reflexivity. Qed.

(** ** Table extraction *)

Section ColumnFacts.

Context {V : Type}.
Variable readDictionary : list byte -> Z -> result (gmap Z V).
Variable convertColumnValue : V -> Z -> V.
Variable hidxValue : Column.t -> jsval -> V.

Abbreviation extractColumn := (_extractColumn V readDictionary convertColumnValue hidxValue).
Abbreviation extractCols := (extractColumns V readDictionary convertColumnValue hidxValue).
Abbreviation extractTable := (extractTableData V readDictionary convertColumnValue hidxValue).





End ColumnFacts.



(** ** Record decoding *)

(** C3 at the failing input: the record with the single serial type 4 and
    the payload FF FF FF FF decodes to 4294967294, not to -1: the
    subtraction for the sign uses a 32-bit shift, whose count wraps. *)
Theorem parseRecord_int32_all_ones :
  parseRecord (bytes_of [2; 4; 255; 255; 255; 255]) = Ok [SqlNum (Int 4294967294)].
Proof. vm_compute. reflexivity. Qed.

(** The widths of one, two and three bytes are sign-extended as stated. *)
Example parseRecord_narrow_all_ones :
  parseRecord (bytes_of [2; 1; 255]) = Ok [SqlNum (Int (-1))]
  /\ parseRecord (bytes_of [2; 2; 255; 255]) = Ok [SqlNum (Int (-1))]
  /\ parseRecord (bytes_of [2; 3; 255; 255; 255]) = Ok [SqlNum (Int (-1))].
Proof. repeat split; vm_compute; reflexivity. Qed.

(** The widths of six and eight bytes share the defect of the width of
    four. *)
Example parseRecord_wide_all_ones :
  parseRecord (bytes_of [2; 5; 255; 255; 255; 255; 255; 255])
    = Ok [SqlNum (Int (2 ^ 48 - 1 - 65536))]
  /\ parseRecord (bytes_of [2; 6; 255; 255; 255; 255; 255; 255; 255; 255])
    = Ok [SqlNum (Int (2 ^ 64))].
Proof. split; vm_compute; reflexivity. Qed.

(** ** Query source analyzer *)



Lemma setAdd_not_in (d : list jsstring) (x self : jsstring) :
  self ∉ d -> x <> self -> self ∉ setAdd d x.
Proof.
  intros Hd Hx. unfold setAdd. case_bool_decide; [done|].
  rewrite elem_of_app, list_elem_of_singleton. intros [?|?]; congruence.
Qed.

Lemma fold_setAdd_not_in {A} (c : A -> bool) (f : A -> jsstring) (self : jsstring)
  (l : list A) : forall d : list jsstring,
  (forall m, c m = true -> f m <> self) ->
  self ∉ d ->
  self ∉ fold_left (fun d m => if c m then setAdd d (f m) else d) l d.
Proof.
  induction l as [|m l IH]; intros d Hc Hd; cbn [fold_left]; [done|].
  apply IH; [done|].
  destruct (c m) eqn:E; [|done].
  apply setAdd_not_in; auto.
Qed.

(** The dependency list never holds the name it was computed for. *)
Lemma findDeps_irreflexive (sc self : jsstring) : self ∉ findDeps sc self.
Proof.
  unfold findDeps.
  apply (fold_setAdd_not_in
           (fun _ => negb (bool_decide (_ = self)))
           (fun m => unescapeQuotes (group1 sc m))).
  { intros m Hm. apply negb_true_iff, bool_decide_eq_false in Hm. exact Hm. }
  apply (fold_setAdd_not_in
           (fun m => negb (bool_decide (group1 (scanLoop false sc) m = self)) && _ && _ && _)
           (fun m => group1 (scanLoop false sc) m)).
  { intros m Hm. apply andb_true_iff in Hm as [Hm _].
    apply andb_true_iff in Hm as [Hm _]. apply andb_true_iff in Hm as [Hm _].
    apply negb_true_iff, bool_decide_eq_false in Hm. exact Hm. }
  apply not_elem_of_nil.
Qed.

Lemma parseChunk_irreflexive code stripped fn s e q :
  Forall irreflexive_query q ->
  Forall irreflexive_query (parseChunk code stripped fn s e q).
Proof.
  intros Hq. unfold parseChunk.
  destruct (exec reSharedName _ 0); [|done].
  apply Forall_app. split; [done|].
  apply Forall_singleton. apply findDeps_irreflexive.
Qed.

Lemma parseChunks_irreflexive code stripped fn pos : forall q,
  Forall irreflexive_query q ->
  Forall irreflexive_query (parseChunks code stripped fn pos q).
Proof.
  induction pos as [|s rest IH]; intros q Hq; cbn [parseChunks]; [done|].
  apply IH. by apply parseChunk_irreflexive.
Qed.

Lemma parseMCodeFile_irreflexive mCode fn :
  Forall irreflexive_query (parseMCodeFile mCode fn).
Proof.
  unfold parseMCodeFile.
  pose proof (parseChunks_irreflexive (stripBOM mCode) (stripCS (stripBOM mCode)) fn
                (m_index <$> execAll reShared (stripCS (stripBOM mCode))) []
                (Forall_nil_2 _)) as H.
  destruct (parseChunks _ _ _ _ _) as [|q0 qs]; [|done].
  destruct (_ && _); [|done].
  apply Forall_singleton. apply findDeps_irreflexive.
Qed.

Lemma pushSchemaQuery_irreflexive fn name expr st :
  Forall irreflexive_query st.1 ->
  Forall irreflexive_query (pushSchemaQuery fn name expr st).1.
Proof.
  intros H. unfold pushSchemaQuery.
  destruct expr; [done|]. case_bool_decide; [done|]. cbn [fst].
  apply Forall_app. split; [done|].
  apply Forall_singleton. apply findDeps_irreflexive.
Qed.

Lemma schemaQueries_irreflexive model fn :
  Forall irreflexive_query (schemaQueries model fn).
Proof.
  unfold schemaQueries.
  assert (Hexprs : forall es (st : list Query.t * gset jsstring),
    Forall irreflexive_query st.1 ->
    Forall irreflexive_query
      (fold_left (fun st e =>
         pushSchemaQuery fn (exprName e) (exprText (exprExpression e)) st) es st).1).
  { induction es as [|e es IH]; intros st H; cbn [fold_left]; [done|].
    apply IH. by apply pushSchemaQuery_irreflexive. }
  assert (Hparts : forall t ps (st : list Query.t * gset jsstring),
    Forall irreflexive_query st.1 ->
    Forall irreflexive_query
      (fold_left (fun st p =>
         if bool_decide (sourceType p = Some (js "m"))
         then pushSchemaQuery fn (tableName t) (exprText (partExpression p)) st
         else st) ps st).1).
  { intros t. induction ps as [|p ps IH]; intros st H; cbn [fold_left]; [done|].
    apply IH. case_bool_decide; [|done]. by apply pushSchemaQuery_irreflexive. }
  assert (Htables : forall ts (st : list Query.t * gset jsstring),
    Forall irreflexive_query st.1 ->
    Forall irreflexive_query
      (fold_left (fun st t =>
         fold_left (fun st p =>
           if bool_decide (sourceType p = Some (js "m"))
           then pushSchemaQuery fn (tableName t) (exprText (partExpression p)) st
           else st) (partitions t) st) ts st).1).
  { induction ts as [|t ts IH]; intros st H; cbn [fold_left]; [done|].
    apply IH. by apply Hparts. }
  apply Hexprs, Htables. cbn. constructor.
Qed.

(** C8. For every query built by the module parser (shared segmentation
    or the anonymous fallback), by the schema path or by the data-model
    path, the name of the query is not among its dependencies; a name
    written as a quoted identifier is compared after its quoting is
    resolved. *)
Theorem name_not_in_dependencies (q : Query.t) :
  produced q -> Query.name q ∉ Query.dependencies q.
Proof.
  intros [mCode fn q' Hq|model fn q' Hq|fileName e].
  - pose proof (parseMCodeFile_irreflexive mCode fn) as H.
    rewrite Forall_forall in H. by apply H.
  - pose proof (schemaQueries_irreflexive model fn) as H.
    rewrite Forall_forall in H. by apply H.
  - apply findDeps_irreflexive.
Qed.

Lemma name_not_in_dependencies_witness :
  js "My Q" ∉ [js "Other"].
Proof.
  apply (name_not_in_dependencies
           {| Query.name := js "My Q";
              Query.code := js "#" ++ [DQUOTE] ++ js "My Q" ++ [DQUOTE] ++ js " & Other";
              Query.fileName := js "book.xlsx";
              Query.dependencies := [js "Other"];
              Query.externalRefs := Some [] |}).
  apply (produced_by_module exQuotedSelf (js "book.xlsx")).
  vm_compute. apply list_elem_of_here.
Defined.

(** ** Container format resolver *)

Lemma findPKLoop_first (b : list byte) (s : Z) (fuel : nat) : forall i,
  0 <= i <= s -> s < len b - 4 ->
  signatureAt b s = true ->
  (forall j, i <= j < s -> signatureAt b j = false) ->
  s - i < Z.of_nat fuel ->
  findPKLoop fuel b i = s.
Proof.
  induction fuel as [|f IH]; intros i Hi Hs Hsig Hfirst Hfuel; [lia|].
  cbn [findPKLoop].
  replace (i <? len b - 4) with true by (symmetry; apply Z.ltb_lt; lia).
  destruct (decide (i = s)) as [->|Hne].
  - by rewrite Hsig.
  - rewrite Hfirst by lia. apply IH; [lia|done|done| |lia].
    intros j Hj. apply Hfirst. lia.
Qed.

Lemma findPK_first (b : list byte) (s : Z) :
  0 <= s -> s < len b - 4 ->
  signatureAt b s = true ->
  (forall j, 0 <= j < s -> signatureAt b j = false) ->
  findPK b = s.
Proof.
  intros Hs Hlt Hsig Hfirst. unfold findPK.
  apply findPKLoop_first; [lia|done|done|done|]. unfold len in *. lia.
Qed.

(** C6. When the length field of the envelope exceeds the bytes that
    follow it and the buffer holds the local-file-header signature at
    some offset (followed by at least one more byte), the resolver scans
    for the signature and returns the query source files of the archive
    that starts at the first match (none when that archive does not
    open); and on every buffer the resolver returns a list and does not
    throw. *)
Theorem mashup_signature_fallback (loadAsync : list byte -> result Zip) :
  (forall (buf : list byte) (fn : jsstring) (s : Z),
     8 <= len buf ->
     len buf - 8 < readU32 buf 4 ->
     0 <= s -> s + 4 < len buf ->
     signatureAt buf s = true ->
     (forall j, 0 <= j < s -> signatureAt buf j = false) ->
     findPK buf = s
     /\ extractFromDataMashup loadAsync buf fn =
          Ok match loadAsync (drop (Z.to_nat s) buf) with
             | Ok z => extractMCodeFromZip z fn
             | Throw _ => []
             end)
  /\ (forall (buf : list byte) (fn : jsstring),
        exists q, extractFromDataMashup loadAsync buf fn = Ok q).
Proof.
  split.
  - intros buf fn s Hlen Hn Hs Hs4 Hsig Hfirst.
    assert (Hpk : findPK buf = s) by (apply findPK_first; [done|lia|done|done]).
    split; [done|].
    unfold extractFromDataMashup.
    replace (len buf <? 8) with false by (symmetry; apply Z.ltb_ge; lia).
    replace (readU32 buf 4 <=? len buf - 8) with false by (symmetry; apply Z.leb_gt; lia).
    rewrite !andb_false_r. cbn [try_catch mbind result_bind].
    change (len (@nil Query.t) =? 0) with true. cbn match.
    rewrite Hpk.
    replace (0 <=? s) with true by (symmetry; apply Z.leb_le; lia).
    by destruct (loadAsync (drop (Z.to_nat s) buf)).
  - intros buf fn. unfold extractFromDataMashup.
    destruct (len buf <? 8); [by eexists|].
    set (q1 := try_catch _ _).
    assert (Hq1 : exists q, q1 = Ok q).
    { unfold q1. destruct (_ && _); [|by eexists].
      destruct (loadAsync _); cbn; by eexists. }
    destruct Hq1 as [q ->]. cbn [mbind result_bind].
    destruct (len q =? 0); [|by eexists].
    destruct (0 <=? findPK buf); [|by eexists].
    destruct (loadAsync _); cbn; by eexists.
Qed.

Lemma mashup_signature_fallback_witness :
  findPK exMashup = 12
  /\ extractFromDataMashup exLoadAsync exMashup (js "book.xlsx") =
       Ok match exLoadAsync (drop (Z.to_nat 12) exMashup) with
          | Ok z => extractMCodeFromZip z (js "book.xlsx")
          | Throw _ => []
          end.
Proof.
  apply (proj1 (mashup_signature_fallback exLoadAsync) exMashup (js "book.xlsx") 12).
  - vm_compute. discriminate.
  - vm_compute. reflexivity.
  - lia.
  - vm_compute. reflexivity.
  - reflexivity.
  - intros j Hj.
    assert (Hcases : j = 0 \/ j = 1 \/ j = 2 \/ j = 3 \/ j = 4 \/ j = 5 \/ j = 6
                     \/ j = 7 \/ j = 8 \/ j = 9 \/ j = 10 \/ j = 11) by lia.
    repeat (destruct Hcases as [->|Hcases]; [reflexivity|]); subst; reflexivity.
Defined.

(** The queries found through the fallback in the example envelope. *)
Example mashup_example_queries :
  extractFromDataMashup exLoadAsync exMashup (js "book.xlsx")
  = Ok [exOrdersQuery (js "book.xlsx")].
Proof. vm_compute. reflexivity. Qed.

(** ** Merging of the extraction paths *)

Lemma pushUnique_coherent st q : seen_coherent st -> seen_coherent (pushUnique st q).
Proof.
  intros [Hnd Hseen]. unfold pushUnique.
  case_bool_decide as Hin; [done|].
  split; cbn [fst snd].
  - rewrite fmap_app. apply NoDup_app. split; [done|]. split.
    + intros k Hk [->|[]%elem_of_nil]%elem_of_cons. apply Hin, Hseen, Hk.
    + apply NoDup_singleton.
  - intros k. rewrite fmap_app, elem_of_union, elem_of_singleton, elem_of_app, Hseen.
    cbn. rewrite list_elem_of_singleton. tauto.
Qed.

Lemma pushUnique_prefix st q : st.1 `prefix_of` (pushUnique st q).1.
Proof.
  unfold pushUnique. case_bool_decide; [done|]. cbn. by apply prefix_app_r.
Qed.

Lemma addUnique_coherent nq : forall st, seen_coherent st -> seen_coherent (addUnique st nq).
Proof.
  unfold addUnique. induction nq as [|q nq IH]; intros st H; cbn [fold_left]; [done|].
  apply IH. by apply pushUnique_coherent.
Qed.

Lemma addUnique_prefix nq : forall st, st.1 `prefix_of` (addUnique st nq).1.
Proof.
  unfold addUnique. induction nq as [|q nq IH]; intros st; cbn [fold_left]; [done|].
  etrans; [apply pushUnique_prefix|apply IH].
Qed.

Lemma coherent_key_unique (l : list Query.t) (q0 q : Query.t) :
  NoDup (qkey <$> l) -> q0 ∈ l -> q ∈ l -> qkey q = qkey q0 -> q = q0.
Proof.
  intros Hnd [i Hi]%list_elem_of_lookup [j Hj]%list_elem_of_lookup Hk.
  assert (i = j) as ->.
  { eapply NoDup_lookup; [exact Hnd| |].
    - rewrite list_lookup_fmap, Hi. reflexivity.
    - rewrite list_lookup_fmap, Hj. cbn. by rewrite Hk. }
  congruence.
Qed.

Lemma coherent_pairs_distinct (l : list Query.t) :
  NoDup (qkey <$> l) -> NoDup (qpair <$> l).
Proof.
  intros H.
  apply (NoDup_fmap_1 (fun p : jsstring * jsstring => p.1 ++ js "::" ++ p.2)).
  by rewrite <- list_fmap_compose.
Qed.

Lemma tryAdd_coherent (st : pstate) batch label :
  seen_coherent st.1 -> seen_coherent (tryAdd st batch label).1.
Proof.
  intros H. unfold tryAdd. destruct batch as [nq|m].
  - cbn [fst]. by apply addUnique_coherent.
  - by destruct label.
Qed.

Lemma fold_coherent {A} (f : pstate -> A -> pstate) (l : list A) :
  (forall st x, seen_coherent st.1 -> seen_coherent (f st x).1) ->
  forall st, seen_coherent st.1 -> seen_coherent (fold_left f l st).1.
Proof.
  intros Hf. induction l as [|x l IH]; intros st H; cbn [fold_left]; [done|].
  apply IH, Hf, H.
Qed.

Lemma empty_coherent : seen_coherent ([], ∅).
Proof.
  split; cbn; [constructor|]. intros k. rewrite elem_of_nil. set_solver.
Qed.

Section ContainerFacts.

Variable loadAsync : list byte -> result Zip.
Variable parseSchemaJson : list byte -> result SchemaModel.
Variable readDataModelEntries : list byte -> result (list MEntry).
Variable extractFromCustomXml : list byte -> jsstring -> result (list Query.t).
Variable parseConnectionsXml : jsstring -> jsstring -> result (list Query.t).
Variable hasDataModelDecoder : bool.

Abbreviation parseXlsx :=
  (parseXlsxFile loadAsync extractFromCustomXml parseConnectionsXml).
Abbreviation parsePbix :=
  (parsePbixFile loadAsync parseSchemaJson readDataModelEntries hasDataModelDecoder).

Lemma parseXlsxFile_coherent fileName file r :
  parseXlsx fileName file = Ok r -> NoDup (qkey <$> queries r).
Proof.
  unfold parseXlsxFile. destruct (loadAsync file) as [zip|m]; [|done].
  cbn [mbind result_bind]. intros [= <-]. cbn [queries].
  match goal with |- NoDup (qkey <$> ?st.1.1) => enough (seen_coherent st.1) as [H _] by exact H end.
  destruct (len _ =? 0); [destruct (zipFile zip _); [apply tryAdd_coherent|]|].
  all: apply fold_coherent;
    [intros st [p ze] H; destruct (test _ _); [by apply tryAdd_coherent|done]|].
  all: apply fold_coherent;
    [intros st [p ze] H; destruct (_ && _); [by apply tryAdd_coherent|done]|].
  all: apply empty_coherent.
Qed.

Lemma parsePbixFile_coherent fileName file r :
  parsePbix fileName file = Ok r -> NoDup (qkey <$> queries r).
Proof.
  unfold parsePbixFile. destruct (loadAsync file) as [zip|m]; [|done].
  cbn [mbind result_bind]. intros [= <-]. cbn [queries].
  match goal with |- NoDup (qkey <$> ?st.1.1) => enough (seen_coherent st.1) as [H _] by exact H end.
  set (st1 := match match zipFile zip (js "DataMashup") with
                    | Some e => Some e
                    | None => zipFile zip (js "datamashup")
                    end with
              | Some ze => tryAdd _ _ _
              | None => _
              end).
  assert (H1 : seen_coherent st1.1).
  { unfold st1. destruct (match zipFile zip (js "DataMashup") with
                          | Some e => Some e | None => _ end);
      [apply tryAdd_coherent|]; apply empty_coherent. }
  clearbody st1.
  set (st2 := if len st1.1.1 =? 0 then _ else st1).
  assert (H2 : seen_coherent st2.1).
  { unfold st2. destruct (len st1.1.1 =? 0); [|done].
    destruct (zipFile zip _); [by apply tryAdd_coherent|done]. }
  clearbody st2.
  destruct (len st2.1.1 =? 0); [|done].
  destruct (zipFile zip _); [|done].
  destruct hasDataModelDecoder; [by apply tryAdd_coherent|done].
Qed.

(** C9. The query list returned by the spreadsheet parser and by the
    BI-package parser holds pairwise distinct (file name, query name)
    pairs, and each parser returns a list whenever the outer archive
    opens. Merging a batch into the list keeps every query already there
    at its place, and a later query with the file name and name of one
    already there is discarded, not appended. *)
Theorem queries_unique_per_container :
  (forall fileName file r,
     parseXlsx fileName file = Ok r -> NoDup (qpair <$> queries r))
  /\ (forall fileName file r,
        parsePbix fileName file = Ok r -> NoDup (qpair <$> queries r))
  /\ (forall fileName file zip,
        loadAsync file = Ok zip ->
        is_ok (parseXlsx fileName file) = true
        /\ is_ok (parsePbix fileName file) = true)
  /\ (forall (st : list Query.t * gset jsstring) (nq : list Query.t),
        seen_coherent st ->
        st.1 `prefix_of` (addUnique st nq).1
        /\ forall q0 q,
             q0 ∈ st.1 -> q ∈ (addUnique st nq).1 ->
             qpair q = qpair q0 -> q = q0).
Proof.
  split; [|split; [|split]].
  - intros fileName file r H. by eapply coherent_pairs_distinct, parseXlsxFile_coherent.
  - intros fileName file r H. by eapply coherent_pairs_distinct, parsePbixFile_coherent.
  - intros fileName file zip H. unfold parseXlsxFile, parsePbixFile. by rewrite H.
  - intros st nq Hst. split; [apply addUnique_prefix|].
    intros q0 q Hq0 Hq Hpair.
    destruct (addUnique_coherent nq st Hst) as [Hnd _].
    apply (coherent_key_unique _ _ _ Hnd); [|done|].
    + eapply elem_of_prefix; [exact Hq0|apply addUnique_prefix].
    + unfold qkey. injection Hpair as -> ->. done.
Qed.

End ContainerFacts.

Lemma queries_unique_per_container_witness :
  NoDup (qpair <$> [exOrdersQuery (js "book.xlsx")]).
Proof.
  apply (proj1 (queries_unique_per_container exLoadAsync
                  (fun _ => Throw "no schema") (fun _ => Throw "no model")
                  (fun _ _ => Ok []) (fun _ _ => Ok []) false)
               (js "book.xlsx") exWorkbook
               {| queries := [exOrdersQuery (js "book.xlsx")]; errors := [] |}).
  vm_compute. reflexivity.
Defined.

(** Both binary parts of the example workbook hold the same query; the
    parser returns it once. *)
Example workbook_duplicate_merged :
  parseXlsxFile exLoadAsync (fun _ _ => Ok []) (fun _ _ => Ok []) (js "book.xlsx") exWorkbook
  = Ok {| queries := [exOrdersQuery (js "book.xlsx")]; errors := [] |}.
Proof. vm_compute. reflexivity. Qed.

(** ** Compression frame decoder *)

Section Xpress9Facts.

Variable createResult : nat -> option bool.
Variable startResult : nat -> bool.
Variable decodeResult : list libcall -> nat -> list byte -> Z -> list byte.

Abbreviation blockStep := (decompressBlock decodeResult).
Abbreviation blocks := (blocksLoop decodeResult).
Abbreviation groups := (groupsLoop createResult startResult decodeResult).
Abbreviation decompress := (decompressXpress9 createResult startResult decodeResult).

(** One block: at most one decode call, on the live decoder. *)
Lemma decompressBlock_calls buf st id :
  g_decoder (wasm st) = Some id ->
  exists bs,
    calls (blockStep buf st).1 = calls (wasm st) ++ (DecoderDecode id <$> bs)
    /\ len bs <= 1
    /\ g_decoder (blockStep buf st).1 = Some id
    /\ created (blockStep buf st).1 = created (wasm st)
    /\ forall st', (blockStep buf st).2 = Ok st' -> wasm st' = (blockStep buf st).1.
Proof.
  intros Hid. unfold decompressBlock.
  destruct (getUint32 buf (offset st)) as [uncompSize|m];
    [destruct (getUint32 buf (offset st + 4)) as [compSize|m]|].
  - destruct (_ || _).
    + exists []. cbn. rewrite app_nil_r. repeat split; try done. by intros st' [= <-].
    + unfold xpress9_decompress. rewrite Hid. cbn.
      eexists [_]. cbn. repeat split; try done. by intros st' [= <-].
  - exists []. cbn. rewrite app_nil_r. repeat split; done.
  - exists []. cbn. rewrite app_nil_r. repeat split; done.
Qed.

(** The blocks of one group: decode calls only, all on the live decoder,
    and no more of them than the group has blocks. *)
Lemma blocksLoop_calls buf nBlocks fuel : forall b st id,
  g_decoder (wasm st) = Some id ->
  exists bs,
    calls (blocks fuel buf nBlocks b st).1 = calls (wasm st) ++ (DecoderDecode id <$> bs)
    /\ len bs <= Z.max 0 (nBlocks - b)
    /\ g_decoder (blocks fuel buf nBlocks b st).1 = Some id
    /\ created (blocks fuel buf nBlocks b st).1 = created (wasm st)
    /\ forall st', (blocks fuel buf nBlocks b st).2 = Ok st' ->
                   wasm st' = (blocks fuel buf nBlocks b st).1.
Proof.
  induction fuel as [|f IH]; intros b st id Hid; cbn [blocksLoop].
  - exists []. cbn [fst snd]. rewrite fmap_nil, app_nil_r.
    repeat split; try done; [unfold len; cbn [length]; lia|]. by intros st' [= <-].
  - destruct ((b <? nBlocks) && _) eqn:Hc.
    + apply andb_true_iff in Hc as [Hb _]. apply Z.ltb_lt in Hb.
      destruct (decompressBlock_calls buf st id Hid) as (bs1 & C1 & L1 & G1 & K1 & W1).
      destruct (blockStep buf st) as [w1 [st1|m]] eqn:E; cbn [fst snd] in *.
      * specialize (W1 st1 eq_refl).
        destruct (IH (b + 1) st1 id) as (bs2 & C2 & L2 & G2 & K2 & W2); [by rewrite W1|].
        exists (bs1 ++ bs2). rewrite C2, W1, C1, fmap_app, app_assoc, G2, K2, W1, K1.
        repeat split; try done. rewrite len_app. lia.
      * exists bs1. repeat split; try done. lia.
    + exists []. cbn [fst snd]. rewrite fmap_nil, app_nil_r.
      repeat split; try done; [unfold len; cbn [length]; lia|]. by intros st' [= <-].
Qed.

Lemma xpress9_free_calls w :
  g_decoder (xpress9_free w) = None
  /\ created (xpress9_free w) = created w
  /\ calls (xpress9_free w) = calls w ++ destroyCall (g_decoder w).
Proof.
  unfold xpress9_free. destruct (g_decoder w) eqn:E; cbn; [done|].
  by rewrite E, app_nil_r.
Qed.

Lemma xpress9_init_calls w :
  g_decoder w = None ->
  ((xpress9_init createResult startResult w).2 <> 0 ->
     g_decoder (xpress9_init createResult startResult w).1 = Some (created w)
     /\ created (xpress9_init createResult startResult w).1 = S (created w)
     /\ calls (xpress9_init createResult startResult w).1 =
          calls w ++ [DecoderCreate (created w); DecoderStartSession (created w)])
  /\ ((xpress9_init createResult startResult w).2 = 0 ->
        exists cs, calls (xpress9_init createResult startResult w).1 = calls w ++ cs
                   /\ Forall (fun c => isDecode c = false) cs).
Proof.
  intros Hnone. unfold xpress9_init. rewrite Hnone.
  destruct (createResult (created w)) as [[|]|]; cbn [fst snd calls g_decoder created].
  - destruct (startResult (created w)); split; try done.
    intros _. eexists. split; [reflexivity|]. repeat constructor.
  - split; [done|]. intros _. eexists. split; [reflexivity|]. repeat constructor.
  - split; [done|]. intros _. eexists. split; [reflexivity|]. repeat constructor.
Qed.

(** The groups of a stream: one session per group, in the order of the
    groups, each opened by destroying the decoder of the group before. *)
Lemma groupsLoop_calls buf gs : forall st,
  exists blockss tail,
    calls (groups gs buf st).1 =
      calls (wasm st)
      ++ sessionsTrace (g_decoder (wasm st)) (created (wasm st)) blockss ++ tail
    /\ Forall2 (fun nBlocks bs => len bs <= Z.max 0 nBlocks)
               (take (length blockss) gs) blockss
    /\ Forall (fun c => isDecode c = false) tail
    /\ forall st', (groups gs buf st).2 = Ok st' ->
                   length blockss = length gs /\ tail = []
                   /\ wasm st' = (groups gs buf st).1.
Proof.
  induction gs as [|nBlocks rest IH]; intros st; cbn [groupsLoop].
  - exists [], []. cbn [sessionsTrace app fst snd length take]. rewrite app_nil_r.
    split; [done|]. split; [constructor|]. split; [constructor|].
    by intros st' [= <-].
  - destruct (xpress9_free_calls (wasm st)) as (G0 & K0 & C0).
    set (prev := g_decoder (wasm st)) in *.
    set (w0 := xpress9_free (wasm st)) in *.
    destruct (xpress9_init_calls w0 G0) as [Hok Hfail].
    destruct (xpress9_init createResult startResult w0) as [w1 ok]; cbn [fst snd] in *.
    destruct (ok =? 0) eqn:Eok.
    + apply Z.eqb_eq in Eok. destruct (Hfail Eok) as (cs & C1 & Hcs).
      exists [], (destroyCall prev ++ cs). cbn [sessionsTrace app fst snd length take].
      rewrite C1, C0, <- app_assoc.
      split; [done|]. split; [constructor|]. split; [|done].
      apply Forall_app. split; [|done]. by destruct prev; repeat constructor.
    + apply Z.eqb_neq in Eok. destruct (Hok Eok) as (G1 & K1 & C1).
      set (st1 := {| wasm := w1; offset := offset st; chunks := chunks st |}).
      destruct (blocksLoop_calls buf nBlocks (length buf) 0 st1 (created w0) G1)
        as (bs & C2 & L2 & G2 & K2 & W2).
      destruct (blocks (length buf) buf nBlocks 0 st1) as [w2 [st2|m]];
        cbn [fst snd wasm st1] in *.
      * specialize (W2 st2 eq_refl).
        destruct (IH st2) as (blockss & tail & C3 & F3 & T3 & O3).
        exists (bs :: blockss), tail.
        rewrite C3, W2, C2, G2, K2, C1, C0, K1, K0.
        cbn [sessionsTrace]. split; [by rewrite <- !app_assoc|].
        split; [cbn [length take]; constructor; [lia|done]|]. split; [done|].
        intros st' Hst'. destruct (O3 st' Hst') as (Hl & Ht & Hw).
        cbn [length]. by rewrite Hl, Ht, Hw.
      * exists [bs], []. cbn [sessionsTrace]. rewrite C2, C1, C0, K0, !app_nil_r.
        split; [by rewrite <- !app_assoc|].
        split; [cbn [length take]; repeat constructor; lia|]. split; [constructor|done].
Qed.

(** In the calls of consecutive sessions, a block is decoded by the
    decoder of its own session: the [g]-th session uses decoder [id + g]. *)
Lemma sessionsTrace_decoder blockss : forall prev id i src,
  DecoderDecode i src ∈ sessionsTrace prev id blockss ->
  exists (g : nat) (bs : list (list byte)),
    blockss !! g = Some bs /\ src ∈ bs /\ i = (id + g)%nat.
Proof.
  induction blockss as [|bs rest IH]; intros prev id i src; cbn [sessionsTrace].
  - by intros ?%elem_of_nil.
  - rewrite !elem_of_app. intros [Hd|[Hc|[Hb|Hr]]].
    + destruct prev; [|by apply elem_of_nil in Hd].
      by apply list_elem_of_singleton in Hd.
    + apply elem_of_cons in Hc as [?|Hc]; [done|].
      by apply list_elem_of_singleton in Hc.
    + apply list_elem_of_fmap in Hb as (src' & [= -> ->] & Hin).
      exists 0%nat, bs. repeat split; [done|lia].
    + destruct (IH _ _ _ _ Hr) as (g & bs' & Hg & Hin & ->).
      exists (S g), bs'. repeat split; [done|done|lia].
Qed.

(** C7. On a multi-threaded stream the library calls of a run are those
    of consecutive sessions, one per thread group, prefix groups first and
    main groups after them: each session starts by destroying the live
    decoder, creating a new one and starting its session, and only then
    are blocks decoded, no more of them than the group has, and every
    block by the decoder of its own group, never by that of a group
    before; the calls left over (a failed start, the final release) hold
    no decode. When the run returns, every group had its session. *)
Theorem fresh_session_per_group (w : Wasm) (buf : list byte)
  (mainChunks prefixChunks prefixThreads mainThreads : Z) :
  isMultiThread buf = true ->
  readCounters buf = Ok (mainChunks, prefixChunks, prefixThreads, mainThreads) ->
  exists (blockss : list (list (list byte))) (tail : list libcall),
    calls (decompress w buf).1 =
      calls w ++ sessionsTrace (g_decoder w) (created w) blockss ++ tail
    /\ Forall2 (fun nBlocks bs => len bs <= Z.max 0 nBlocks)
         (take (length blockss)
            (replicate (Z.to_nat prefixThreads) prefixChunks
             ++ replicate (Z.to_nat mainThreads) mainChunks))
         blockss
    /\ Forall (fun c => isDecode c = false) tail
    /\ (forall i src,
          DecoderDecode i src ∈ sessionsTrace (g_decoder w) (created w) blockss ->
          exists (g : nat) (bs : list (list byte)),
            blockss !! g = Some bs /\ src ∈ bs /\ i = (created w + g)%nat)
    /\ (is_ok (decompress w buf).2 = true ->
        length blockss = (Z.to_nat prefixThreads + Z.to_nat mainThreads)%nat).
Proof.
  intros Hmt Hcnt. unfold decompressXpress9. rewrite Hmt, Hcnt.
  set (st := {| wasm := w; offset := 102 + 40; chunks := [] |}).
  destruct (groupsLoop_calls buf
              (threadGroups mainChunks prefixChunks prefixThreads mainThreads) st)
    as (blockss & tail & C & F & T & O).
  destruct (groups _ buf st) as [w1 [st1|m]] eqn:E; cbn [fst snd] in *.
  - destruct (O st1 eq_refl) as (Hlen & -> & Hw).
    exists blockss, (destroyCall (g_decoder w1)).
    unfold xpress9_free. rewrite Hw.
    split; [|split; [done|split; [|split]]].
    + rewrite app_nil_r in C.
      destruct (g_decoder w1); cbn [calls destroyCall]; rewrite C, <- ?app_assoc; [done|].
      by rewrite !app_nil_r.
    + by destruct (g_decoder w1); repeat constructor.
    + intros i src. apply sessionsTrace_decoder.
    + intros _. rewrite Hlen. unfold threadGroups.
      by rewrite length_app, !length_replicate.
  - exists blockss, tail.
    split; [done|]. split; [done|]. split; [done|]. split; [|done].
    intros i src. apply sessionsTrace_decoder.
Qed.

End Xpress9Facts.

Lemma fresh_session_per_group_witness :
  exists (blockss : list (list (list byte))) (tail : list libcall),
    calls (decompressXpress9 (fun _ => Some true) (fun _ => true)
             (fun _ _ src _ => src) exWasm exStream).1 =
      calls exWasm ++ sessionsTrace (g_decoder exWasm) (created exWasm) blockss ++ tail
    /\ Forall2 (fun nBlocks bs => len bs <= Z.max 0 nBlocks)
         (take (length blockss)
            (replicate (Z.to_nat 1) 1 ++ replicate (Z.to_nat 1) 1))
         blockss
    /\ Forall (fun c => isDecode c = false) tail
    /\ (forall i src,
          DecoderDecode i src
            ∈ sessionsTrace (g_decoder exWasm) (created exWasm) blockss ->
          exists (g : nat) (bs : list (list byte)),
            blockss !! g = Some bs /\ src ∈ bs /\ i = (created exWasm + g)%nat)
    /\ (is_ok (decompressXpress9 (fun _ => Some true) (fun _ => true)
                 (fun _ _ src _ => src) exWasm exStream).2 = true ->
        length blockss = (Z.to_nat 1 + Z.to_nat 1)%nat).
Proof.
  apply (fresh_session_per_group (fun _ => Some true) (fun _ => true)
           (fun _ _ src _ => src) exWasm exStream 1 1 1 1);
    vm_compute; reflexivity.
Defined.

(** The calls of the example stream: two groups, two decoders. *)
Example example_stream_calls :
  calls (decompressXpress9 (fun _ => Some true) (fun _ => true)
           (fun _ _ src _ => src) exWasm exStream).1
  = [ DecoderCreate 0; DecoderStartSession 0; DecoderDecode 0 (bytes_of [0xAA; 0xBB]);
      DecoderDestroy 0;
      DecoderCreate 1; DecoderStartSession 1; DecoderDecode 1 (bytes_of [0xCC; 0xDD]);
      DecoderDestroy 1 ].
Proof. vm_compute. reflexivity. Qed.

(** * Further properties of the extraction core *)

(** ** Comment and string stripping *)

Lemma keptOrBlanked_blank c : keptOrBlanked c (if (c =? LF)%N then LF else SPACE).
Proof.
  unfold keptOrBlanked. destruct (c =? LF)%N eqn:E.
  - apply N.eqb_eq in E. by left.
  - apply N.eqb_neq in E. by right.
Qed.

Ltac strip_conditions :=
  repeat match goal with
    | |- context [(?a =? ?b)%N] => destruct (a =? b)%N eqn:?
    | |- context [bool_decide ?P] => destruct (bool_decide P) eqn:?
    end;
  cbn [andb];
  repeat match goal with
    | H : (_ =? _)%N = true |- _ => apply N.eqb_eq in H; try subst
    | H : (_ =? _)%N = false |- _ => apply N.eqb_neq in H
    | H : bool_decide _ = true |- _ => apply bool_decide_eq_true in H
    | H : bool_decide _ = false |- _ => clear H
    end.

Ltac strip_element :=
  first [ by left | by right | right; split; [reflexivity|congruence] ].

Lemma stripLoop_pointwise (n : nat) : forall (code : jsstring) (mode : stripMode),
  (length code <= n)%nat ->
  Forall2 keptOrBlanked code (stripLoop mode code).
Proof.
  induction n as [|n IH]; intros code mode Hlen.
  { destruct code; [constructor|cbn in Hlen; lia]. }
  destruct code as [|c rest]; [constructor|].
  cbn [length] in Hlen.
  assert (Hrest : forall m, Forall2 keptOrBlanked rest (stripLoop m rest))
    by (intros m; apply IH; lia).
  assert (Hr : forall m d r, rest = d :: r -> Forall2 keptOrBlanked r (stripLoop m r)).
  { intros m d r ->. apply IH. cbn [length] in Hlen. lia. }
  destruct mode; cbn [stripLoop]; strip_conditions;
    try (constructor; [strip_element|apply Hrest]);
    (destruct rest as [|d r]; [done|]);
    repeat match goal with H : Some _ = Some _ |- _ => injection H as -> end;
    (constructor; [strip_element|]); (constructor; [strip_element|]);
    by eapply Hr.
Qed.

(** X1. Stripping keeps positions: the stripped text has the length of
    the source, every character is either kept or replaced by a space,
    and a line feed stays a line feed at its place, so that offsets and
    line numbers found in the stripped text are those of the source. *)
Theorem stripCS_keeps_positions (code : jsstring) :
  length (stripCS code) = length code
  /\ Forall2 keptOrBlanked code (stripCS code)
  /\ forall i : nat, stripCS code !! i = Some LF <-> code !! i = Some LF.
Proof.
  pose proof (stripLoop_pointwise (length code) code InCode (le_n _)) as H.
  fold (stripCS code) in H.
  split; [symmetry; by eapply Forall2_length|]. split; [done|].
  intros i. split; intros Hi.
  - destruct (Forall2_lookup_r _ _ _ _ _ H Hi) as (c & Hc & [E|[E _]]); [by subst|done].
  - destruct (Forall2_lookup_l _ _ _ _ _ H Hi) as (o & Ho & [E|[_ E]]); [by subst|done].
Qed.

Lemma stripCS_keeps_positions_witness :
  length (stripCS exOrders) = length exOrders
  /\ Forall2 keptOrBlanked exOrders (stripCS exOrders)
  /\ forall i : nat, stripCS exOrders !! i = Some LF <-> exOrders !! i = Some LF.
Proof. exact (stripCS_keeps_positions exOrders). Defined.

(** ** Container format resolver *)

Lemma lor_low_high (x k m : Z) :
  0 <= m -> 0 <= x < 2 ^ m -> Z.lor x (Z.shiftl k m) = x + Z.shiftl k m.
Proof.
  intros Hm Hx. symmetry. apply Z.add_nocarry_lor.
  apply Z.bits_inj'. intros i Hi. rewrite Z.land_spec, Z.bits_0.
  destruct (Z.lt_ge_cases i m) as [Hlt|Hge].
  - by rewrite Z.shiftl_spec_low, andb_false_r.
  - rewrite <- (Z.mod_small x (2 ^ m)) by lia.
    by rewrite Z.mod_pow2_bits_high.
Qed.

Lemma u8_range (b : byte) : 0 <= u8 b < 256.
Proof. destruct b; vm_compute; split; congruence. Qed.

Lemma js_shl_byte_8 (b : byte) : js_shl (u8 b) 8 = Z.shiftl (u8 b) 8.
Proof. destruct b; reflexivity. Qed.

Lemma js_shl_byte_16 (b : byte) : js_shl (u8 b) 16 = Z.shiftl (u8 b) 16.
Proof. destruct b; reflexivity. Qed.

Lemma js_shl_byte_24 (b : byte) :
  js_shl (u8 b) 24 = Z.shiftl (if u8 b <? 128 then u8 b else u8 b - 256) 24.
Proof. destruct b; reflexivity. Qed.

Lemma byteAt_lookup (data : list byte) (k : Z) (x : byte) :
  0 <= k -> data !! Z.to_nat k = Some x -> byteAt data k = Some (u8 x).
Proof.
  intros Hk Hx. unfold byteAt.
  replace (0 <=? k) with true by (symmetry; by apply Z.leb_le).
  by rewrite Hx.
Qed.

Lemma four_bytes_at (b : list byte) (o : Z) :
  0 <= o -> o + 4 <= len b ->
  exists b0 b1 b2 b3,
    b !! Z.to_nat o = Some b0 /\ b !! Z.to_nat (o + 1) = Some b1
    /\ b !! Z.to_nat (o + 2) = Some b2 /\ b !! Z.to_nat (o + 3) = Some b3
    /\ slice b o (o + 4) = [b0; b1; b2; b3].
Proof.
  intros Ho Hlen. unfold len in Hlen.
  destruct (lookup_lt_is_Some_2 b (Z.to_nat o)) as [b0 H0]; [lia|].
  destruct (lookup_lt_is_Some_2 b (Z.to_nat (o + 1))) as [b1 H1]; [lia|].
  destruct (lookup_lt_is_Some_2 b (Z.to_nat (o + 2))) as [b2 H2]; [lia|].
  destruct (lookup_lt_is_Some_2 b (Z.to_nat (o + 3))) as [b3 H3]; [lia|].
  exists b0, b1, b2, b3. repeat split; try done.
  unfold slice. replace (Z.to_nat (o + 4 - o)) with 4%nat by lia.
  rewrite (drop_S _ _ _ H0).
  replace (S (Z.to_nat o)) with (Z.to_nat (o + 1)) by lia.
  rewrite (drop_S _ _ _ H1).
  replace (S (Z.to_nat (o + 1))) with (Z.to_nat (o + 2)) by lia.
  rewrite (drop_S _ _ _ H2).
  replace (S (Z.to_nat (o + 2))) with (Z.to_nat (o + 3)) by lia.
  by rewrite (drop_S _ _ _ H3).
Qed.

(** X2. Where the four bytes lie inside the buffer, the hand-written
    [readU32] (shifts and ors on 32-bit integers, then an unsigned
    conversion) reads the same little-endian unsigned value as a DataView
    [getUint32] does, a number from 0 to 2^32 - 1. *)
Theorem readU32_little_endian (b : list byte) (o : Z) :
  0 <= o -> o + 4 <= len b ->
  getUint32 b o = Ok (readU32 b o) /\ 0 <= readU32 b o < 2 ^ 32.
Proof.
  intros Ho Hlen.
  destruct (four_bytes_at b o Ho Hlen) as (b0 & b1 & b2 & b3 & H0 & H1 & H2 & H3 & Hs).
  assert (Hval : readU32 b o
                 = u8 b0 + 256 * (u8 b1 + 256 * (u8 b2 + 256 * (u8 b3 + 0)))).
  { unfold readU32, byteOr0.
    rewrite (byteAt_lookup b o b0), (byteAt_lookup b (o + 1) b1),
      (byteAt_lookup b (o + 2) b2), (byteAt_lookup b (o + 3) b3) by (done || lia).
    cbn [from_option id].
    rewrite js_shl_byte_8, js_shl_byte_16, js_shl_byte_24.
    pose proof (u8_range b0). pose proof (u8_range b1).
    pose proof (u8_range b2). pose proof (u8_range b3).
    rewrite (lor_low_high (u8 b0) (u8 b1) 8) by lia.
    rewrite (Z.shiftl_mul_pow2 (u8 b1) 8) by lia.
    rewrite (lor_low_high _ (u8 b2) 16) by lia.
    rewrite (Z.shiftl_mul_pow2 (u8 b2) 16) by lia.
    rewrite (lor_low_high _ _ 24) by lia.
    rewrite Z.shiftl_mul_pow2 by lia.
    destruct (u8 b3 <? 128) eqn:E.
    - apply Z.ltb_lt in E. rewrite Z.mod_small by lia. lia.
    - apply Z.ltb_ge in E.
      replace (u8 b0 + u8 b1 * 2 ^ 8 + u8 b2 * 2 ^ 16 + (u8 b3 - 256) * 2 ^ 24)
        with (u8 b0 + u8 b1 * 2 ^ 8 + u8 b2 * 2 ^ 16 + u8 b3 * 2 ^ 24 + (-1) * 2 ^ 32)
        by lia.
      rewrite Z_mod_plus_full, Z.mod_small by lia. lia. }
  split.
  - unfold getUint32, getUintLE.
    replace ((0 <=? o) && (o + 4 <=? len b)) with true
      by (symmetry; apply andb_true_iff; split; [apply Z.leb_le|apply Z.leb_le]; lia).
    rewrite Hs, Hval. reflexivity.
  - rewrite Hval.
    pose proof (u8_range b0). pose proof (u8_range b1).
    pose proof (u8_range b2). pose proof (u8_range b3). lia.
Qed.

Lemma readU32_little_endian_witness :
  getUint32 exMashup 4 = Ok (readU32 exMashup 4) /\ 0 <= readU32 exMashup 4 < 2 ^ 32.
Proof. apply (readU32_little_endian exMashup 4); vm_compute; congruence. Defined.

Lemma findPKLoop_spec (b : list byte) (fuel : nat) : forall i,
  0 <= i -> len b - 4 - i <= Z.of_nat fuel ->
  (forall j, 0 <= j < i -> signatureAt b j = false) ->
  (findPKLoop fuel b i = -1
   /\ forall j, 0 <= j < len b - 4 -> signatureAt b j = false)
  \/ (0 <= findPKLoop fuel b i < len b - 4
      /\ signatureAt b (findPKLoop fuel b i) = true
      /\ forall j, 0 <= j < findPKLoop fuel b i -> signatureAt b j = false).
Proof.
  induction fuel as [|f IH]; intros i Hi Hfuel Hbefore; cbn [findPKLoop].
  - left. split; [done|]. intros j Hj. apply Hbefore. lia.
  - destruct (i <? len b - 4) eqn:E.
    + apply Z.ltb_lt in E. destruct (signatureAt b i) eqn:Es.
      * right. repeat split; [lia|lia|done|done].
      * apply IH; [lia|lia|]. intros j Hj.
        destruct (decide (j = i)) as [->|]; [done|]. apply Hbefore. lia.
    + apply Z.ltb_ge in E. left. split; [done|]. intros j Hj. apply Hbefore. lia.
Qed.

(** X3. The signature scan is exact: [findPK] returns -1 exactly when no
    offset below [length - 4] carries the local-file-header signature,
    and otherwise the first such offset; a signature that starts in the
    last four bytes of the buffer is never reported. *)
Theorem findPK_first_or_none (b : list byte) :
  (findPK b = -1 /\ forall j, 0 <= j < len b - 4 -> signatureAt b j = false)
  \/ (0 <= findPK b < len b - 4
      /\ signatureAt b (findPK b) = true
      /\ forall j, 0 <= j < findPK b -> signatureAt b j = false).
Proof.
  unfold findPK. apply findPKLoop_spec; [lia|unfold len; lia|].
  intros j Hj. lia.
Qed.

Lemma findPK_first_or_none_witness :
  (findPK exMashup = -1
   /\ forall j, 0 <= j < len exMashup - 4 -> signatureAt exMashup j = false)
  \/ (0 <= findPK exMashup < len exMashup - 4
      /\ signatureAt exMashup (findPK exMashup) = true
      /\ forall j, 0 <= j < findPK exMashup -> signatureAt exMashup j = false).
Proof. exact (findPK_first_or_none exMashup). Defined.

(** ** Dependency and reference lists *)

Lemma setAdd_NoDup (d : list jsstring) (x : jsstring) : NoDup d -> NoDup (setAdd d x).
Proof.
  intros Hd. unfold setAdd. case_bool_decide as Hin; [done|].
  apply NoDup_app. split; [done|]. split; [|apply NoDup_singleton].
  intros y Hy [->|[]%elem_of_nil]%elem_of_cons. done.
Qed.

Lemma fold_setAdd_NoDup {A} (step : list jsstring -> A -> list jsstring) (l : list A) :
  (forall d m, NoDup d -> NoDup (step d m)) ->
  forall d, NoDup d -> NoDup (fold_left step l d).
Proof.
  intros Hstep. induction l as [|m l IH]; intros d Hd; cbn [fold_left]; [done|].
  apply IH, Hstep, Hd.
Qed.

Lemma fold_setAdd_nonempty {A} (step : list jsstring -> A -> list jsstring) (l : list A) :
  (forall d m, [] ∉ d -> [] ∉ step d m) ->
  forall d, [] ∉ d -> [] ∉ fold_left step l d.
Proof.
  intros Hstep. induction l as [|m l IH]; intros d Hd; cbn [fold_left]; [done|].
  apply IH, Hstep, Hd.
Qed.

(** X4. The dependency list and the external-reference list are sets in
    insertion order: neither holds a string twice, and an external
    reference is never the empty string. *)
Theorem dependency_lists_are_sets (sc self code : jsstring) :
  NoDup (findDeps sc self)
  /\ NoDup (findExternalFileRefs code)
  /\ [] ∉ findExternalFileRefs code.
Proof.
  split; [|split].
  - unfold findDeps.
    apply fold_setAdd_NoDup.
    { intros d m Hd. destruct (negb _); [by apply setAdd_NoDup|done]. }
    apply fold_setAdd_NoDup; [|constructor].
    intros d m Hd. destruct (_ && _); [by apply setAdd_NoDup|done].
  - unfold findExternalFileRefs. apply fold_setAdd_NoDup; [|constructor].
    intros d m Hd.
    destruct (match last _ with Some (c :: b) => c :: b | _ => _ end);
      [done|by apply setAdd_NoDup].
  - unfold findExternalFileRefs. apply fold_setAdd_nonempty; [|apply not_elem_of_nil].
    intros d m Hd.
    destruct (match last _ with Some (c :: b) => c :: b | _ => _ end) as [|c b];
      [done|].
    unfold setAdd. case_bool_decide; [done|].
    rewrite elem_of_app, list_elem_of_singleton. intros [?|?]; done.
Qed.

(** ** Queries of one container *)

Lemma parseMCodeFile_from_container mCode fn :
  Forall (from_container fn) (parseMCodeFile mCode fn).
Proof.
  unfold parseMCodeFile.
  assert (Hchunks : forall code stripped pos q,
    Forall (from_container fn) q ->
    Forall (from_container fn) (parseChunks code stripped fn pos q)).
  { intros code stripped pos. induction pos as [|s rest IH]; intros q Hq;
      cbn [parseChunks]; [done|].
    apply IH. unfold parseChunk. destruct (exec reSharedName _ 0); [|done].
    apply Forall_app. split; [done|]. by apply Forall_singleton. }
  pose proof (Hchunks (stripBOM mCode) (stripCS (stripBOM mCode))
                (m_index <$> execAll reShared (stripCS (stripBOM mCode))) []
                (Forall_nil_2 _)) as H.
  destruct (parseChunks _ _ _ _ _) as [|q0 qs]; [|done].
  destruct (_ && _); [|done]. by apply Forall_singleton.
Qed.

Lemma pushUnique_from_container fn st q :
  from_container fn q -> Forall (from_container fn) st.1 ->
  Forall (from_container fn) (pushUnique st q).1.
Proof.
  intros Hq Hst. unfold pushUnique. case_bool_decide; [done|]. cbn [fst].
  apply Forall_app. split; [done|]. by apply Forall_singleton.
Qed.

Lemma addUnique_from_container fn nq : forall st,
  Forall (from_container fn) nq -> Forall (from_container fn) st.1 ->
  Forall (from_container fn) (addUnique st nq).1.
Proof.
  unfold addUnique. induction nq as [|q nq IH]; intros st Hnq Hst; cbn [fold_left]; [done|].
  inversion Hnq; subst. apply IH; [done|]. by apply pushUnique_from_container.
Qed.

(** Within one container, distinct keys are distinct names. *)
Lemma names_distinct_in_container fn (l : list Query.t) :
  Forall (from_container fn) l -> NoDup (qkey <$> l) -> NoDup (Query.name <$> l).
Proof.
  intros Hfn Hnd.
  apply (NoDup_fmap_1 (fun n : jsstring => fn ++ js "::" ++ n)).
  rewrite <- list_fmap_compose.
  erewrite list_fmap_ext; [exact Hnd|].
  intros i q Hq. cbn. unfold qkey.
  rewrite Forall_forall in Hfn. rewrite <- (Hfn q); [done|].
  by eapply list_elem_of_lookup_2.
Qed.

Lemma extractMCodeFromZip_state (z : Zip) (fn : jsstring) :
  forall st : list Query.t * gset jsstring,
    seen_coherent st -> Forall (from_container fn) st.1 ->
    let st' :=
      fold_left (fun st pe =>
        let '(p, e) := pe in
        if startsWith p (js "Formulas/") && endsWith p (js ".m") && negb (dir e) then
          match asyncString e with
          | Ok text => fold_left pushUnique (parseMCodeFile text fn) st
          | Throw _ => st
          end
        else st) z st in
    seen_coherent st' /\ Forall (from_container fn) st'.1.
Proof.
  induction z as [|[p e] z IH]; intros st Hc Hf; cbn [fold_left]; [done|].
  apply IH.
  - destruct (_ && _); [|done]. destruct (asyncString e); [|done].
    by apply addUnique_coherent.
  - destruct (_ && _); [|done]. destruct (asyncString e); [|done].
    apply addUnique_from_container; [apply parseMCodeFile_from_container|done].
Qed.

Lemma extractMCodeFromZip_names (z : Zip) (fn : jsstring) :
  Forall (from_container fn) (extractMCodeFromZip z fn)
  /\ NoDup (Query.name <$> extractMCodeFromZip z fn).
Proof.
  destruct (extractMCodeFromZip_state z fn ([], ∅) empty_coherent (Forall_nil_2 _))
    as [[Hnd _] Hf].
  split; [exact Hf|]. by apply (names_distinct_in_container fn).
Qed.

Lemma extractFromDataMashup_cases (loadAsync : list byte -> result Zip) buf fn :
  extractFromDataMashup loadAsync buf fn = Ok []
  \/ exists z, extractFromDataMashup loadAsync buf fn = Ok (extractMCodeFromZip z fn).
Proof.
  unfold extractFromDataMashup.
  destruct (len buf <? 8); [by left|].
  set (q1 := try_catch _ _).
  assert (Hq1 : q1 = Ok [] \/ exists z, q1 = Ok (extractMCodeFromZip z fn)).
  { unfold q1. destruct (_ && _); [|by left].
    destruct (loadAsync _) as [z|m]; cbn; [right; by exists z|by left]. }
  destruct Hq1 as [->|[z ->]]; cbn [mbind result_bind].
  - change (len (@nil Query.t) =? 0) with true. cbn match.
    destruct (0 <=? findPK buf); [|by left].
    destruct (loadAsync _) as [z|m]; cbn; [right; by exists z|by left].
  - destruct (len _ =? 0) eqn:E; [|right; by exists z].
    apply Z.eqb_eq in E. unfold len in E.
    destruct (extractMCodeFromZip z fn) as [|q0 qs] eqn:Ez; [|cbn in E; lia].
    destruct (0 <=? findPK buf); [|by left].
    destruct (loadAsync _) as [z'|m]; cbn; [right; by exists z'|by left].
Qed.

(** X5. All queries unpacked from one query bundle carry the name of the
    container they were asked for, and their names are pairwise distinct:
    a second query of the same name, from the same or from another source
    file of the bundle, is discarded. This holds for the archive walk and
    for the resolver on any buffer. *)
Theorem bundle_queries_named_once (loadAsync : list byte -> result Zip)
  (z : Zip) (buf : list byte) (fn : jsstring) :
  (Forall (from_container fn) (extractMCodeFromZip z fn)
   /\ NoDup (Query.name <$> extractMCodeFromZip z fn))
  /\ exists qs, extractFromDataMashup loadAsync buf fn = Ok qs
                /\ Forall (from_container fn) qs
                /\ NoDup (Query.name <$> qs).
Proof.
  split; [apply extractMCodeFromZip_names|].
  destruct (extractFromDataMashup_cases loadAsync buf fn) as [->|[z' ->]].
  - exists []. repeat split; constructor.
  - eexists. split; [reflexivity|]. apply extractMCodeFromZip_names.
Qed.

(** X6. The structured envelope takes precedence over the signature
    scan: when the version is zero, the length field fits the buffer and
    the archive cut out by it opens and holds at least one query, the
    resolver returns exactly the queries of that archive and does not
    look at what a scan would find. *)
Theorem mashup_structured_first (loadAsync : list byte -> result Zip)
  (buf : list byte) (fn : jsstring) (z : Zip) :
  8 <= len buf ->
  readU32 buf 0 = 0 ->
  0 < readU32 buf 4 <= len buf - 8 ->
  loadAsync (slice buf 8 (8 + readU32 buf 4)) = Ok z ->
  extractMCodeFromZip z fn <> [] ->
  extractFromDataMashup loadAsync buf fn = Ok (extractMCodeFromZip z fn).
Proof.
  intros Hlen Hv Hn Hz Hne. unfold extractFromDataMashup.
  replace (len buf <? 8) with false by (symmetry; apply Z.ltb_ge; lia).
  rewrite Hv. change (0 =? 0) with true.
  replace (0 <? readU32 buf 4) with true by (symmetry; apply Z.ltb_lt; lia).
  replace (readU32 buf 4 <=? len buf - 8) with true by (symmetry; apply Z.leb_le; lia).
  cbn [andb]. rewrite Hz. cbn [mbind result_bind try_catch app].
  destruct (extractMCodeFromZip z fn) as [|q0 qs]; [done|].
  reflexivity.
Qed.

Lemma mashup_structured_first_witness :
  extractFromDataMashup exLoadAsync exEnvelope (js "book.xlsx")
  = Ok (extractMCodeFromZip exInnerZip (js "book.xlsx")).
Proof.
  apply (mashup_structured_first exLoadAsync exEnvelope (js "book.xlsx") exInnerZip).
  - vm_compute. congruence.
  - reflexivity.
  - vm_compute. split; congruence.
  - reflexivity.
  - vm_compute. congruence.
Defined.

(** X7. Without an envelope and without a signature there is nothing to
    open: on a buffer of fewer than eight bytes, and on a buffer whose
    envelope fields are not usable (version not zero, or a length of zero
    or beyond the buffer) and in which the scan finds no signature, the
    resolver returns the empty list without calling the archive reader,
    so whatever that reader would do. *)
Theorem mashup_nothing_to_open (loadAsync : list byte -> result Zip)
  (buf : list byte) (fn : jsstring) :
  len buf < 8
  \/ ((readU32 buf 0 <> 0 \/ readU32 buf 4 <= 0 \/ len buf - 8 < readU32 buf 4)
      /\ findPK buf = -1) ->
  extractFromDataMashup loadAsync buf fn = Ok [].
Proof.
  intros [Hshort|[Henv Hpk]]; unfold extractFromDataMashup.
  - by replace (len buf <? 8) with true by (symmetry; apply Z.ltb_lt; lia).
  - destruct (len buf <? 8); [done|].
    assert ((readU32 buf 0 =? 0) && (0 <? readU32 buf 4)
            && (readU32 buf 4 <=? len buf - 8) = false) as ->.
    { destruct Henv as [H|[H|H]].
      - apply Z.eqb_neq in H. by rewrite H.
      - apply Z.ltb_ge in H. rewrite H. by rewrite andb_false_r.
      - apply Z.leb_gt in H. rewrite H. by rewrite andb_false_r. }
    cbn [try_catch mbind result_bind].
    change (len (@nil Query.t) =? 0) with true. cbn match.
    by rewrite Hpk.
Qed.

Lemma mashup_nothing_to_open_witness :
  extractFromDataMashup exLoadAsync exShort (js "book.xlsx") = Ok [].
Proof.
  apply (mashup_nothing_to_open exLoadAsync exShort (js "book.xlsx")).
  left. vm_compute. reflexivity.
Defined.

(** ** Merging *)

Lemma pushUnique_seen st q : qkey q ∈ (pushUnique st q).2.
Proof.
  unfold pushUnique. case_bool_decide; [done|]. cbn. set_solver.
Qed.

Lemma pushUnique_seen_mono st q k : k ∈ st.2 -> k ∈ (pushUnique st q).2.
Proof.
  unfold pushUnique. case_bool_decide; [done|]. cbn. set_solver.
Qed.

Lemma addUnique_seen_mono nq : forall st k, k ∈ st.2 -> k ∈ (addUnique st nq).2.
Proof.
  unfold addUnique. induction nq as [|q nq IH]; intros st k Hk; cbn [fold_left]; [done|].
  by apply IH, pushUnique_seen_mono.
Qed.

Lemma addUnique_seen nq : forall st q, q ∈ nq -> qkey q ∈ (addUnique st nq).2.
Proof.
  unfold addUnique. induction nq as [|q' nq IH]; intros st q Hq; cbn [fold_left].
  - by apply elem_of_nil in Hq.
  - apply elem_of_cons in Hq as [->|Hq]; [|by apply IH].
    apply (addUnique_seen_mono nq), pushUnique_seen.
Qed.

Lemma addUnique_all_seen nq : forall st,
  (forall q, q ∈ nq -> qkey q ∈ st.2) -> addUnique st nq = st.
Proof.
  unfold addUnique. induction nq as [|q nq IH]; intros st H; cbn [fold_left]; [done|].
  assert (pushUnique st q = st) as ->.
  { unfold pushUnique. rewrite bool_decide_eq_true_2; [done|]. apply H, list_elem_of_here. }
  apply IH. intros q' Hq'. apply H. by apply list_elem_of_further.
Qed.

(** X8. Merging absorbs repeats: once a batch has been merged, merging
    it again, or merging any batch made of queries of it, changes neither
    the query list nor the set of seen keys, whatever the state before. *)
Theorem addUnique_absorbs (st : list Query.t * gset jsstring) (nq nq' : list Query.t) :
  nq' ⊆ nq -> addUnique (addUnique st nq) nq' = addUnique st nq.
Proof.
  intros Hsub. apply addUnique_all_seen. intros q Hq. by apply addUnique_seen, Hsub.
Qed.

Lemma addUnique_absorbs_witness :
  addUnique (addUnique ([], ∅) [exOrdersQuery (js "a"); exOrdersQuery (js "b")])
            [exOrdersQuery (js "b")]
  = addUnique ([], ∅) [exOrdersQuery (js "a"); exOrdersQuery (js "b")].
Proof.
  apply (addUnique_absorbs ([], ∅) [exOrdersQuery (js "a"); exOrdersQuery (js "b")]
           [exOrdersQuery (js "b")]).
  intros q Hq. apply list_elem_of_further. exact Hq.
Defined.

(** ** Order of the extraction paths *)

Lemma tryAdd_empty_batch (st : pstate) (batch : result (list Query.t)) label :
  (forall nq, batch = Ok nq -> nq = []) ->
  (tryAdd st batch label).1.1 = st.1.1.
Proof.
  intros H. unfold tryAdd. destruct batch as [nq|m].
  - by rewrite (H nq eq_refl).
  - by destruct label.
Qed.

Section PathOrder.

Variable loadAsync : list byte -> result Zip.
Variable extractFromCustomXml : list byte -> jsstring -> result (list Query.t).

(** X9. The connections descriptor is a last resort: when the binary
    parts and the XML parts of a workbook yield at least one query, the
    result of the spreadsheet parser does not depend on the connections
    descriptor at all, neither its queries nor its errors. *)
Theorem connections_only_as_last_resort
  (parseConnectionsXml : jsstring -> jsstring -> result (list Query.t))
  (fileName : jsstring) (file : list byte) (r0 : ParseResult) :
  parseXlsxFile loadAsync extractFromCustomXml (fun _ _ => Ok []) fileName file = Ok r0 ->
  queries r0 <> [] ->
  parseXlsxFile loadAsync extractFromCustomXml parseConnectionsXml fileName file = Ok r0.
Proof.
  unfold parseXlsxFile. destruct (loadAsync file) as [zip|m]; [|done].
  cbn [mbind result_bind].
  set (st2 := fold_left _ zip (fold_left _ zip _)).
  destruct (len st2.1.1 =? 0) eqn:E; [|done].
  intros [= <-] Hne. exfalso. apply Hne. cbn [queries].
  apply Z.eqb_eq in E. unfold len in E.
  destruct (zipFile zip _) as [ze|].
  - rewrite tryAdd_empty_batch.
    + destruct (st2.1.1); [done|cbn in E; lia].
    + intros nq. destruct (asyncString ze); cbn; congruence.
  - destruct (st2.1.1); [done|cbn in E; lia].
Qed.

(** X10. The paths of a BI package are tried in order and the first one
    that yields a query wins: when the [DataMashup] part yields at least
    one query, the result of the package parser does not depend on the
    schema part, on the data-model part or on whether the data-model
    decoder is present. *)
Theorem mashup_part_wins
  (parseSchemaJson : list byte -> result SchemaModel)
  (readDataModelEntries : list byte -> result (list MEntry))
  (hasDataModelDecoder : bool)
  (fileName : jsstring) (file : list byte) (r0 : ParseResult) :
  parsePbixFile loadAsync (fun _ => Throw "") (fun _ => Throw "") false fileName file
    = Ok r0 ->
  queries r0 <> [] ->
  parsePbixFile loadAsync parseSchemaJson readDataModelEntries hasDataModelDecoder
    fileName file = Ok r0.
Proof.
  unfold parsePbixFile. destruct (loadAsync file) as [zip|m]; [|done].
  cbn [mbind result_bind].
  set (st1 := match match zipFile zip (js "DataMashup") with
                    | Some e => Some e
                    | None => zipFile zip (js "datamashup")
                    end with
              | Some ze => tryAdd _ _ _
              | None => _
              end).
  destruct (len st1.1.1 =? 0) eqn:E; [|by rewrite E].
  intros [= <-] Hne. exfalso. apply Hne. cbn [queries].
  apply Z.eqb_eq in E. unfold len in E.
  assert (H1 : st1.1.1 = []) by (destruct (st1.1.1); [done|cbn in E; lia]).
  set (st2 := match zipFile zip (js "DataModelSchema") with
              | Some ze => tryAdd st1 _ _
              | None => st1
              end).
  assert (H2 : st2.1.1 = []).
  { unfold st2. destruct (zipFile zip (js "DataModelSchema")) as [ze|]; [|done].
    rewrite tryAdd_empty_batch; [done|].
    intros nq. unfold extractFromDataModelSchema.
    destruct (asyncArrayBuffer ze); cbn; congruence. }
  rewrite H2. change (len (@nil Query.t) =? 0) with true. cbn match.
  by destruct (zipFile zip (js "DataModel")).
Qed.

End PathOrder.

Lemma connections_only_as_last_resort_witness :
  parseXlsxFile exLoadAsync (fun _ _ => Ok []) (fun _ _ => Throw "no descriptor")
    (js "book.xlsx") exWorkbook
  = Ok {| queries := [exOrdersQuery (js "book.xlsx")]; errors := [] |}.
Proof.
  apply (connections_only_as_last_resort exLoadAsync (fun _ _ => Ok [])
           (fun _ _ => Throw "no descriptor") (js "book.xlsx") exWorkbook).
  - vm_compute. reflexivity.
  - discriminate.
Defined.

Lemma mashup_part_wins_witness :
  parsePbixFile exLoadPackage (fun _ => Throw "no schema") (fun _ => Throw "no model") true
    (js "report.pbix") exWorkbook
  = Ok {| queries := [exOrdersQuery (js "report.pbix")]; errors := [] |}.
Proof.
  apply (mashup_part_wins exLoadPackage (fun _ => Throw "no schema")
           (fun _ => Throw "no model") true (js "report.pbix") exWorkbook).
  - vm_compute. reflexivity.
  - discriminate.
Defined.

(** ** Schema path and data-model path *)

Lemma pushSchemaQuery_coherent fn name expr st :
  names_coherent st -> names_coherent (pushSchemaQuery fn name expr st).
Proof.
  intros [Hnd Hseen]. unfold pushSchemaQuery.
  destruct expr; [done|]. case_bool_decide as Hin; [done|].
  split; cbn [fst snd].
  - rewrite fmap_app. apply NoDup_app. split; [done|]. split.
    + intros k Hk [->|[]%elem_of_nil]%elem_of_cons. apply Hin, Hseen, Hk.
    + apply NoDup_singleton.
  - intros k. rewrite fmap_app, elem_of_union, elem_of_singleton, elem_of_app, Hseen.
    cbn. rewrite list_elem_of_singleton. tauto.
Qed.

Lemma pushSchemaQuery_keeps (P : Query.t -> Prop) fn name expr st :
  (forall code deps refs,
     P {| Query.name := name; Query.code := code; Query.fileName := fn;
          Query.dependencies := deps; Query.externalRefs := refs |}) ->
  Forall P st.1 -> Forall P (pushSchemaQuery fn name expr st).1.
Proof.
  intros Hnew Hst. unfold pushSchemaQuery.
  destruct expr; [done|]. case_bool_decide; [done|]. cbn [fst].
  apply Forall_app. split; [done|]. apply Forall_singleton, Hnew.
Qed.

Lemma schemaQueries_invariant (P : Query.t -> Prop) model fn :
  (forall name code deps refs,
     name ∈ schemaNames model ->
     P {| Query.name := name; Query.code := code; Query.fileName := fn;
          Query.dependencies := deps; Query.externalRefs := refs |}) ->
  Forall P (schemaQueries model fn) /\ NoDup (Query.name <$> schemaQueries model fn).
Proof.
  intros HP. unfold schemaQueries.
  set (good := fun st : list Query.t * gset jsstring => names_coherent st /\ Forall P st.1).
  assert (Hexprs : forall es (st : list Query.t * gset jsstring),
    Forall (fun e => exprName e ∈ schemaNames model) es -> good st ->
    good (fold_left (fun st e =>
            pushSchemaQuery fn (exprName e) (exprText (exprExpression e)) st) es st)).
  { induction es as [|e es IH]; intros st Hes [Hc Hp]; cbn [fold_left]; [done|].
    inversion Hes; subst. apply IH; [done|]. split.
    - by apply pushSchemaQuery_coherent.
    - apply pushSchemaQuery_keeps; [|done]. intros. by apply HP. }
  assert (Hparts : forall t ps (st : list Query.t * gset jsstring),
    tableName t ∈ schemaNames model -> good st ->
    good (fold_left (fun st p =>
            if bool_decide (sourceType p = Some (js "m"))
            then pushSchemaQuery fn (tableName t) (exprText (partExpression p)) st
            else st) ps st)).
  { intros t. induction ps as [|p ps IH]; intros st Ht [Hc Hp]; cbn [fold_left]; [done|].
    apply IH; [done|]. case_bool_decide; [|done]. split.
    - by apply pushSchemaQuery_coherent.
    - apply pushSchemaQuery_keeps; [|done]. intros. by apply HP. }
  assert (Htables : forall ts (st : list Query.t * gset jsstring),
    Forall (fun t => tableName t ∈ schemaNames model) ts -> good st ->
    good (fold_left (fun st t =>
            fold_left (fun st p =>
              if bool_decide (sourceType p = Some (js "m"))
              then pushSchemaQuery fn (tableName t) (exprText (partExpression p)) st
              else st) (partitions t) st) ts st)).
  { induction ts as [|t ts IH]; intros st Hts Hg; cbn [fold_left]; [done|].
    inversion Hts; subst. apply IH; [done|]. by apply Hparts. }
  match goal with |- Forall P ?st.1 /\ _ => enough (good st) as [[Hnd _] Hp] by done end.
  apply Hexprs.
  { rewrite Forall_forall. intros e He. unfold schemaNames.
    apply elem_of_app. right. by apply list_elem_of_fmap_2. }
  apply Htables.
  { rewrite Forall_forall. intros t Ht. unfold schemaNames.
    apply elem_of_app. left. by apply list_elem_of_fmap_2. }
  split; [|constructor]. split; cbn; [constructor|].
  intros n. rewrite elem_of_nil. set_solver.
Qed.

(** X11. The schema path names every query once: the queries it returns
    have pairwise distinct names, each of them the name of a table or of
    a top-level expression of the schema, and each carries the name of
    the container; so several partitions of one table, or a table and an
    expression of the same name, give at most one query. *)
Theorem schema_queries_named_once (model : SchemaModel) (fn : jsstring) :
  NoDup (Query.name <$> schemaQueries model fn)
  /\ Forall (fun q => Query.name q ∈ schemaNames model /\ from_container fn q)
            (schemaQueries model fn).
Proof.
  destruct (schemaQueries_invariant
              (fun q => Query.name q ∈ schemaNames model /\ from_container fn q) model fn)
    as [Hp Hnd]; [by intros|]. done.
Qed.

(** The example schema: the second partition and the expression named
    like the table give no query. *)
Example schema_example_names :
  Query.name <$> schemaQueries exSchemaModel (js "report.pbix") = [js "Orders"; js "Limit"].
Proof. vm_compute. reflexivity. Qed.


(** ** The decoded index vector *)







(** ** The shape of an extracted table *)

Lemma longest_spec {A} (columnData : list (list A)) : forall m,
  0 <= m ->
  let r := fold_left (fun max c => Z.max max (len c)) columnData m in
  m <= r /\ Forall (fun c => len c <= r) columnData
  /\ (r = m \/ exists c, c ∈ columnData /\ len c = r).
Proof.
  induction columnData as [|c cs IH]; intros m Hm; cbn [fold_left].
  - split; [lia|]. split; [constructor|by left].
  - destruct (IH (Z.max m (len c))) as (H1 & H2 & H3); [lia|].
    split; [lia|]. split.
    + constructor; [lia|done].
    + destruct H3 as [H3|(c' & Hc' & H3)].
      * destruct (decide (len c <= m)); [left; lia|].
        right. exists c. split; [by left|lia].
      * right. exists c'. split; [by right|done].
Qed.

Section TableFacts.

Context {V : Type}.
Variable readDictionary : list byte -> Z -> result (gmap Z V).
Variable convertColumnValue : V -> Z -> V.
Variable hidxValue : Column.t -> jsval -> V.

Abbreviation extractColumn := (_extractColumn V readDictionary convertColumnValue hidxValue).
Abbreviation extractCols := (extractColumns V readDictionary convertColumnValue hidxValue).
Abbreviation extractTable := (extractTableData V readDictionary convertColumnValue hidxValue).

Lemma extractColumns_shape cols fileCache : forall ns ds ns' ds',
  extractCols cols fileCache ns ds = Ok (ns', ds') ->
  exists n d, ns' = ns ++ n /\ ds' = ds ++ d /\ length n = length d
              /\ sublist n (Column.name <$> cols).
Proof.
  induction cols as [|col rest IH]; intros ns ds ns' ds'; cbn [extractColumns].
  - intros [= <- <-]. exists [], []. by rewrite !app_nil_r.
  - destruct (extractColumn col fileCache) as [[values|]|m]; cbn [mbind result_bind]; [| |done].
    + intros (n & d & -> & -> & Hlen & Hsub)%IH.
      exists (Column.name col :: n), (values :: d).
      rewrite <- !app_assoc. cbn [app length fmap list_fmap].
      repeat split; [lia|]. by constructor.
    + intros (n & d & -> & -> & Hlen & Hsub)%IH.
      exists n, d. repeat split; [done|]. cbn [fmap list_fmap]. by constructor.
Qed.

(** X15. A table that is extracted has one name per data column, the
    names are names of columns of the schema in the order of the schema,
    no column is longer than the row count, and the row count is zero or
    the length of some column. *)
Theorem extracted_table_shape (tableName : jsstring)
  (schema : gmap jsstring (list Column.t)) (fileCache : gmap jsstring (list byte))
  (td : TableData V) :
  extractTable tableName schema fileCache = Ok td ->
  exists tableColumns,
    schema !! tableName = Some tableColumns
    /\ length (columns td) = length (columnData td)
    /\ sublist (columns td) (Column.name <$> tableColumns)
    /\ Forall (fun c => len c <= tableRowCount td) (columnData td)
    /\ (tableRowCount td = 0
        \/ exists c, c ∈ columnData td /\ len c = tableRowCount td).
Proof.
  unfold extractTableData.
  destruct (schema !! tableName) as [tableColumns|]; [|done].
  destruct (extractCols tableColumns fileCache [] []) as [[ns ds]|m] eqn:E;
    cbn [mbind result_bind]; [|done].
  intros [= <-]. cbn [columns columnData tableRowCount].
  apply extractColumns_shape in E as (n & d & -> & -> & Hlen & Hsub).
  cbn [app]. exists tableColumns.
  destruct (longest_spec d 0) as (_ & H2 & H3); [lia|].
  repeat split; done.
Qed.

Lemma extractColumns_skip pre col post fileCache :
  extractColumn col fileCache = Ok None ->
  forall ns ds,
    extractCols (pre ++ col :: post) fileCache ns ds
    = extractCols (pre ++ post) fileCache ns ds.
Proof.
  intros Hcol. induction pre as [|c pre IH]; intros ns ds; cbn [app extractColumns].
  - by rewrite Hcol.
  - destruct (extractColumn c fileCache) as [[values|]|m]; cbn [mbind result_bind];
      [apply IH|apply IH|done].
Qed.

(** X16. A column whose meta file is missing from the cache or cannot be
    read, or whose index file is missing, is left out without an error:
    the table comes out exactly as if the schema did not list that
    column. *)
Theorem unreadable_column_is_skipped (tableName : jsstring)
  (schema : gmap jsstring (list Column.t)) (fileCache : gmap jsstring (list byte))
  (pre post : list Column.t) (col : Column.t) :
  schema !! tableName = Some (pre ++ col :: post) ->
  (fileCache !! (Column.idf col ++ js "meta") = None
   \/ (exists metaBuf m, fileCache !! (Column.idf col ++ js "meta") = Some metaBuf
                         /\ readIdfMeta metaBuf = Throw m)
   \/ fileCache !! Column.idf col = None) ->
  extractTable tableName schema fileCache
  = extractTable tableName (<[tableName := pre ++ post]> schema) fileCache.
Proof.
  intros Hschema Hcol.
  assert (Hnone : extractColumn col fileCache = Ok None).
  { unfold _extractColumn.
    destruct Hcol as [->|[(metaBuf & m & -> & ->)| Hidf]]; [done|done|].
    destruct (fileCache !! (Column.idf col ++ js "meta")) as [metaBuf|]; [|done].
    destruct (readIdfMeta metaBuf); [|done]. by rewrite Hidf. }
  unfold extractTableData. rewrite Hschema, lookup_insert_eq.
  by rewrite extractColumns_skip.
Qed.

Lemma extractColumns_throw cols fileCache col m :
  col ∈ cols ->
  extractColumn col fileCache = Throw m ->
  forall ns ds, exists m', extractCols cols fileCache ns ds = Throw m'.
Proof.
  intros Hin Hcol. induction cols as [|c rest IH]; intros ns ds; [by apply elem_of_nil in Hin|].
  cbn [extractColumns].
  destruct (extractColumn c fileCache) as [[values|]|m0] eqn:E; cbn [mbind result_bind];
    [| |by eexists].
  - apply IH. apply elem_of_cons in Hin as [->|Hin]; [congruence|done].
  - apply IH. apply elem_of_cons in Hin as [->|Hin]; [congruence|done].
Qed.

(** X17. An index file that is cut off is not skipped: when a column of
    the table has a readable meta file and an index file that
    [readIdf] cannot read to its end, extracting the table throws, and no
    column of the table is returned. *)
Theorem cut_off_index_aborts_table (tableName : jsstring)
  (schema : gmap jsstring (list Column.t)) (fileCache : gmap jsstring (list byte))
  (tableColumns : list Column.t) (col : Column.t)
  (metaBuf idfBuf : list byte) (meta : IdfMeta) (m : string) :
  schema !! tableName = Some tableColumns ->
  col ∈ tableColumns ->
  fileCache !! (Column.idf col ++ js "meta") = Some metaBuf ->
  readIdfMeta metaBuf = Ok meta ->
  fileCache !! Column.idf col = Some idfBuf ->
  readIdf idfBuf = Throw m ->
  exists m', extractTable tableName schema fileCache = Throw m'.
Proof.
  intros Hschema Hin Hmeta Hread Hidf Hthrow.
  assert (Hcol : extractColumn col fileCache = Throw m).
  { unfold _extractColumn. by rewrite Hmeta, Hread, Hidf, Hthrow. }
  unfold extractTableData. rewrite Hschema.
  destruct (extractColumns_throw _ _ _ _ Hin Hcol [] []) as [m' ->].
  by exists m'.
Qed.

(** X18. A column that is extracted has one cell per decoded index,
    whichever way the ids are resolved (dictionary, hierarchy index or
    none), so the cells of a row stay aligned across columns. *)
Theorem one_cell_per_index (col : Column.t) (fileCache : gmap jsstring (list byte))
  (cells : list (cell V)) :
  extractColumn col fileCache = Ok (Some cells) ->
  exists metaBuf meta idfBuf idfData indices,
    fileCache !! (Column.idf col ++ js "meta") = Some metaBuf
    /\ readIdfMeta metaBuf = Ok meta
    /\ fileCache !! Column.idf col = Some idfBuf
    /\ readIdf idfBuf = Ok idfData
    /\ decodeRleBitPackedHybrid idfData meta = Ok indices
    /\ length cells = length indices.
Proof.
  unfold _extractColumn.
  destruct (fileCache !! (Column.idf col ++ js "meta")) as [metaBuf|] eqn:E1; [|done].
  destruct (readIdfMeta metaBuf) as [meta|] eqn:E2; [|done].
  destruct (fileCache !! Column.idf col) as [idfBuf|] eqn:E3; [|done].
  destruct (readIdf idfBuf) as [idfData|] eqn:E4; [|done]. cbn [mbind result_bind].
  destruct (decodeRleBitPackedHybrid idfData meta) as [indices|] eqn:E5; [|done].
  cbn [mbind result_bind]. intros H.
  exists metaBuf, meta, idfBuf, idfData, indices. repeat (split; [done|]).
  destruct (truthy (Column.dictionary col)).
  - destruct (fileCache !! default [] (Column.dictionary col)) as [dictBuf|].
    + destruct (readDictionary dictBuf (minDataId meta));
        cbn [try_catch mbind result_bind] in H;
        injection H as <-; by rewrite length_map.
    + cbn [try_catch] in H. injection H as <-. by rewrite length_map.
  - destruct (truthy (Column.hidx col)); injection H as <-; by rewrite length_map.
Qed.

(** X19. A dictionary file that is present but cannot be read does not
    lose the column: the failure of the dictionary reader is caught and
    the column is returned as its raw ids. *)
Theorem unreadable_dictionary_keeps_raw_ids (col : Column.t)
  (fileCache : gmap jsstring (list byte)) (metaBuf idfBuf dictBuf : list byte)
  (meta : IdfMeta) (idfData : IdfData) (indices : list jsval) (m : string) :
  truthy (Column.dictionary col) = true ->
  fileCache !! default [] (Column.dictionary col) = Some dictBuf ->
  readDictionary dictBuf (minDataId meta) = Throw m ->
  fileCache !! (Column.idf col ++ js "meta") = Some metaBuf ->
  readIdfMeta metaBuf = Ok meta ->
  fileCache !! Column.idf col = Some idfBuf ->
  readIdf idfBuf = Ok idfData ->
  decodeRleBitPackedHybrid idfData meta = Ok indices ->
  extractColumn col fileCache = Ok (Some (map CId indices)).
Proof.
  intros Ht Hd Hthrow Hm Hrm Hi Hri Hdec. unfold _extractColumn.
  rewrite Hm, Hrm, Hi, Hri. cbn [mbind result_bind].
  rewrite Hdec. cbn [mbind result_bind].
  rewrite Ht, Hd, Hthrow. reflexivity.
Qed.

End TableFacts.

Lemma extracted_table_shape_witness :
  exists tableColumns,
    exSchema !! js "T" = Some tableColumns
    /\ length [js "Named"; js "Plain"]
       = length [[CId (Num 7); CId (Num 7)]; [CId (Num 7); CId (Num 7) : cell Z]]
    /\ sublist [js "Named"; js "Plain"] (Column.name <$> tableColumns)
    /\ Forall (fun c => len c <= 2) [[CId (Num 7); CId (Num 7)]; [CId (Num 7); CId (Num 7) : cell Z]]
    /\ (2 = 0 \/ exists c, c ∈ [[CId (Num 7); CId (Num 7)]; [CId (Num 7); CId (Num 7) : cell Z]]
                           /\ len c = 2).
Proof.
  apply (extracted_table_shape (fun _ _ => Ok (∅ : gmap Z Z)) (fun v _ => v) (fun _ _ => 0)
           (js "T") exSchema exCache
           {| columns := [js "Named"; js "Plain"];
              columnData := [[CId (Num 7); CId (Num 7)]; [CId (Num 7); CId (Num 7)]];
              tableRowCount := 2 |}).
  vm_compute. reflexivity.
Defined.

Lemma unreadable_column_is_skipped_witness :
  extractTableData Z (fun _ _ => Ok ∅) (fun v _ => v) (fun _ _ => 0) (js "T")
    (<[js "T" := [exColumn "Named" (Some "d"); exLostColumn; exColumn "Plain" None]]> exSchema)
    exCache
  = extractTableData Z (fun _ _ => Ok ∅) (fun v _ => v) (fun _ _ => 0) (js "T")
      (<[js "T" := [exColumn "Named" (Some "d")] ++ [exColumn "Plain" None]]>
         (<[js "T" := [exColumn "Named" (Some "d"); exLostColumn; exColumn "Plain" None]]>
            exSchema))
      exCache.
Proof.
  apply (unreadable_column_is_skipped (fun _ _ => Ok (∅ : gmap Z Z)) (fun v _ => v)
           (fun _ _ => 0) (js "T") _ exCache
           [exColumn "Named" (Some "d")] [exColumn "Plain" None] exLostColumn).
  - vm_compute. reflexivity.
  - left. vm_compute. reflexivity.
Defined.

Lemma cut_off_index_aborts_table_witness :
  exists m',
    extractTableData Z (fun _ _ => Ok ∅) (fun v _ => v) (fun _ _ => 0) (js "T")
      (<[js "T" := [exColumn "Plain" None; exCutColumn]]> exSchema) exCutCache
    = Throw m'.
Proof.
  apply (cut_off_index_aborts_table (fun _ _ => Ok (∅ : gmap Z Z)) (fun v _ => v)
           (fun _ _ => 0) (js "T") _ exCutCache
           [exColumn "Plain" None; exCutColumn] exCutColumn exMetaBuf (bytes_of [1; 0; 0])
           {| minDataId := 0; countBitPacked := 0; bitWidth := 36; rowCount := 0 |}
           "RangeError: Offset is outside the bounds of the DataView").
  - vm_compute. reflexivity.
  - right. left.
  - vm_compute. reflexivity.
  - vm_compute. reflexivity.
  - vm_compute. reflexivity.
  - vm_compute. reflexivity.
Defined.

Lemma one_cell_per_index_witness :
  exists metaBuf meta idfBuf idfData indices,
    exCache !! (Column.idf (exColumn "Plain" None) ++ js "meta") = Some metaBuf
    /\ readIdfMeta metaBuf = Ok meta
    /\ exCache !! Column.idf (exColumn "Plain" None) = Some idfBuf
    /\ readIdf idfBuf = Ok idfData
    /\ decodeRleBitPackedHybrid idfData meta = Ok indices
    /\ length [CId (Num 7); CId (Num 7) : cell Z] = length indices.
Proof.
  apply (one_cell_per_index (fun _ _ => Ok (∅ : gmap Z Z)) (fun v _ => v) (fun _ _ => 0)
           (exColumn "Plain" None) exCache).
  vm_compute. reflexivity.
Defined.

Lemma unreadable_dictionary_keeps_raw_ids_witness :
  _extractColumn Z (fun _ _ => Throw "RangeError") (fun v _ => v) (fun _ _ => 0)
    exDictColumn exDictCache
  = Ok (Some [CId (Num 7); CId (Num 7)]).
Proof.
  apply (unreadable_dictionary_keeps_raw_ids (fun _ _ => Throw "RangeError") (fun v _ => v)
           (fun _ _ => 0) exDictColumn exDictCache exMetaBuf exIdfBuf (bytes_of [0])
           {| minDataId := 0; countBitPacked := 0; bitWidth := 36; rowCount := 0 |}
           {| primarySegment := [ {| dataValue := 7; repeatValue := 2 |} ];
              subSegment := [] |}
           [Num 7; Num 7] "RangeError");
    vm_compute; reflexivity.
Defined.

(** ** Records of the relational page reader *)

Lemma high_bit_byte (b : byte) : (andByte (Some (u8 b)) 0x80 =? 0) = (u8 b <? 128).
Proof. destruct b; reflexivity. Qed.

Lemma low_bits_byte (b : byte) : andByte (Some (u8 b)) 0x7f = u8 b mod 128.
Proof. destruct b; reflexivity. Qed.

Lemma slice_cons (b : list byte) (o e : Z) (x : byte) :
  0 <= o -> o < e -> b !! Z.to_nat o = Some x ->
  slice b o e = x :: slice b (o + 1) e.
Proof.
  intros Ho He Hx. unfold slice.
  replace (Z.to_nat (e - o)) with (S (Z.to_nat (e - (o + 1)))) by lia.
  rewrite (drop_S _ _ _ Hx).
  by replace (S (Z.to_nat o)) with (Z.to_nat (o + 1)) by lia.
Qed.

Lemma slice_empty (b : list byte) (o : Z) : slice b o o = [].
Proof. unfold slice. by rewrite Z.sub_diag. Qed.

Lemma signedBE_1 (b0 : byte) :
  signedBE [b0] = if u8 b0 <? 128 then u8 b0 else u8 b0 - 256.
Proof.
  pose proof (u8_range b0). unfold signedBE, be_combine.
  cbn [rev app le_combine]. change (2 ^ (8 * len [b0] - 1)) with 128.
  change (2 ^ (8 * len [b0])) with 256.
  destruct (u8 b0 <? 128) eqn:E; [apply Z.ltb_lt in E|apply Z.ltb_ge in E].
  - replace (u8 b0 + 256 * 0 <? 128) with true by (symmetry; apply Z.ltb_lt; lia). lia.
  - replace (u8 b0 + 256 * 0 <? 128) with false by (symmetry; apply Z.ltb_ge; lia). lia.
Qed.

Lemma signedBE_2 (b0 b1 : byte) :
  signedBE [b0; b1]
  = if u8 b0 <? 128 then u8 b0 * 256 + u8 b1 else u8 b0 * 256 + u8 b1 - 65536.
Proof.
  pose proof (u8_range b0). pose proof (u8_range b1). unfold signedBE, be_combine.
  cbn [rev app le_combine]. change (2 ^ (8 * len [b0; b1] - 1)) with 32768.
  change (2 ^ (8 * len [b0; b1])) with 65536.
  destruct (u8 b0 <? 128) eqn:E; [apply Z.ltb_lt in E|apply Z.ltb_ge in E].
  - replace (u8 b1 + 256 * (u8 b0 + 256 * 0) <? 32768) with true
      by (symmetry; apply Z.ltb_lt; lia). lia.
  - replace (u8 b1 + 256 * (u8 b0 + 256 * 0) <? 32768) with false
      by (symmetry; apply Z.ltb_ge; lia). lia.
Qed.

Lemma signedBE_3 (b0 b1 b2 : byte) :
  signedBE [b0; b1; b2]
  = if u8 b0 <? 128 then (u8 b0 * 256 + u8 b1) * 256 + u8 b2
    else (u8 b0 * 256 + u8 b1) * 256 + u8 b2 - 16777216.
Proof.
  pose proof (u8_range b0). pose proof (u8_range b1). pose proof (u8_range b2).
  unfold signedBE, be_combine.
  cbn [rev app le_combine]. change (2 ^ (8 * len [b0; b1; b2] - 1)) with 8388608.
  change (2 ^ (8 * len [b0; b1; b2])) with 16777216.
  destruct (u8 b0 <? 128) eqn:E; [apply Z.ltb_lt in E|apply Z.ltb_ge in E].
  - replace (u8 b2 + 256 * (u8 b1 + 256 * (u8 b0 + 256 * 0)) <? 8388608) with true
      by (symmetry; apply Z.ltb_lt; lia). lia.
  - replace (u8 b2 + 256 * (u8 b1 + 256 * (u8 b0 + 256 * 0)) <? 8388608) with false
      by (symmetry; apply Z.ltb_ge; lia). lia.
Qed.

Ltac narrow_width k n :=
  unfold readValue;
  cbn -[byteAt fl js_shl andByte Z.add Z.mul Z.sub Z.ltb Z.pow intLens Z.to_nat];
  change (default 0 (intLens !! Z.to_nat k)) with k;
  change (Z.to_nat k) with n; change (0 <? k) with true;
  cbn [readIntLoop andb].

(** X20. Integers of one, two and three bytes are read as big-endian
    two's complement: where the bytes lie inside the payload, serial
    types 1, 2 and 3 give the signed value of the next one, two and three
    bytes and advance the data cursor by that many bytes. *)
Theorem narrow_integers_sign_extended (payload : list byte) (w dPos : Z)
  (values : list sqlval) :
  1 <= w <= 3 ->
  0 <= dPos ->
  dPos + w <= len payload ->
  readValue payload (Int w) (values, dPos)
  = Ok (values ++ [SqlNum (Int (signedBE (slice payload dPos (dPos + w))))], dPos + w).
Proof.
  intros Hw Hpos Hlen. unfold len in Hlen.
  destruct (lookup_lt_is_Some_2 payload (Z.to_nat dPos)) as [b0 H0]; [lia|].
  pose proof (u8_range b0) as R0.
  pose proof (byteAt_lookup _ _ _ Hpos H0) as B0.
  assert (Hcase : w = 1 \/ w = 2 \/ w = 3) by lia.
  destruct Hcase as [-> | [-> | ->]].
  - rewrite (slice_cons payload dPos (dPos + 1) b0), slice_empty by (done || lia).
    narrow_width 1 1%nat.
    rewrite !Z.add_0_r, B0, high_bit_byte, signedBE_1.
    change (js_shl 1 (1 * 8)) with 256.
    rewrite (fl_small (0 * 256 + u8 b0)) by lia.
    destruct (u8 b0 <? 128) eqn:E; cbn [negb]; [do 4 f_equal; lia|].
    rewrite fl_small by lia. do 4 f_equal; lia.
  - destruct (lookup_lt_is_Some_2 payload (Z.to_nat (dPos + 1))) as [b1 H1]; [lia|].
    pose proof (u8_range b1) as R1.
    pose proof (byteAt_lookup _ (dPos + 1) _ ltac:(lia) H1) as B1.
    rewrite (slice_cons payload dPos (dPos + 2) b0) by (done || lia).
    rewrite (slice_cons payload (dPos + 1) (dPos + 2) b1) by (done || lia).
    replace (dPos + 1 + 1) with (dPos + 2) by lia. rewrite slice_empty.
    narrow_width 2 2%nat.
    replace (dPos + (0 + 1)) with (dPos + 1) by lia.
    rewrite !Z.add_0_r, B0, B1, high_bit_byte, signedBE_2.
    change (js_shl 1 (2 * 8)) with 65536.
    rewrite (fl_small (0 * 256 + u8 b0)) by lia.
    rewrite (fl_small ((0 * 256 + u8 b0) * 256 + u8 b1)) by lia.
    destruct (u8 b0 <? 128) eqn:E; cbn [negb]; [do 4 f_equal; lia|].
    apply Z.ltb_ge in E. rewrite fl_small by lia. do 4 f_equal; lia.
  - destruct (lookup_lt_is_Some_2 payload (Z.to_nat (dPos + 1))) as [b1 H1]; [lia|].
    destruct (lookup_lt_is_Some_2 payload (Z.to_nat (dPos + 2))) as [b2 H2]; [lia|].
    pose proof (u8_range b1) as R1. pose proof (u8_range b2) as R2.
    pose proof (byteAt_lookup _ (dPos + 1) _ ltac:(lia) H1) as B1.
    pose proof (byteAt_lookup _ (dPos + 2) _ ltac:(lia) H2) as B2.
    rewrite (slice_cons payload dPos (dPos + 3) b0) by (done || lia).
    rewrite (slice_cons payload (dPos + 1) (dPos + 3) b1) by (done || lia).
    replace (dPos + 1 + 1) with (dPos + 2) by lia.
    rewrite (slice_cons payload (dPos + 2) (dPos + 3) b2) by (done || lia).
    replace (dPos + 2 + 1) with (dPos + 3) by lia. rewrite slice_empty.
    narrow_width 3 3%nat.
    replace (dPos + (0 + 1 + 1)) with (dPos + 2) by lia.
    replace (dPos + (0 + 1)) with (dPos + 1) by lia.
    rewrite !Z.add_0_r, B0, B1, B2, high_bit_byte, signedBE_3.
    change (js_shl 1 (3 * 8)) with 16777216.
    rewrite (fl_small (0 * 256 + u8 b0)) by lia.
    rewrite (fl_small ((0 * 256 + u8 b0) * 256 + u8 b1)) by lia.
    rewrite (fl_small (((0 * 256 + u8 b0) * 256 + u8 b1) * 256 + u8 b2)) by lia.
    destruct (u8 b0 <? 128) eqn:E; cbn [negb]; [do 4 f_equal; lia|].
    apply Z.ltb_ge in E. rewrite fl_small by lia. do 4 f_equal; lia.
Qed.

Lemma narrow_integers_sign_extended_witness :
  readValue (bytes_of [2; 2; 255; 254]) (Int 2) ([], 2) = Ok ([SqlNum (Int (-2))], 4).
Proof.
  apply (narrow_integers_sign_extended (bytes_of [2; 2; 255; 254]) 2 2 []);
    vm_compute; first [reflexivity | discriminate | (split; discriminate)].
Defined.





(** A float that is cut off is the failure that remains. *)
Example record_float_cut_off :
  parseRecord (bytes_of [2; 7; 1; 2; 3]) = Throw "RangeError: Invalid DataView length".
Proof. vm_compute. reflexivity. Qed.

(** ** Variable-length integers *)

Lemma drop_head_byteAt (data : list byte) (k : Z) (b : byte) (tail : list byte) :
  0 <= k -> drop (Z.to_nat k) data = b :: tail ->
  byteAt data k = Some (u8 b) /\ drop (Z.to_nat (k + 1)) data = tail.
Proof.
  intros Hk Hd. split.
  - apply byteAt_lookup; [done|].
    pose proof (lookup_drop data (Z.to_nat k) 0) as H.
    rewrite Hd, Nat.add_0_r in H. done.
  - replace (Z.to_nat (k + 1)) with (Z.to_nat k + 1)%nat by lia.
    rewrite <- drop_drop, Hd. done.
Qed.

Lemma readVarintLoop_value (data : list byte) (pos : Z) (last : byte) (tail : list byte) :
  0 <= pos -> u8 last < 128 ->
  forall bs fuel i acc,
    0 <= i -> 0 <= acc ->
    drop (Z.to_nat (pos + i)) data = bs ++ last :: tail ->
    Forall (fun b => 128 <= u8 b) bs ->
    (length bs < fuel)%nat ->
    (acc + 1) * 128 ^ (len bs + 1) <= 2 ^ 53 ->
    readVarintLoop fuel data pos i acc
    = inl (fold_left (fun acc b => acc * 128 + u8 b mod 128) (bs ++ [last]) acc,
           i + len bs + 1).
Proof.
  intros Hpos Hlast. induction bs as [|b bs IH]; intros fuel i acc Hi Hacc Hd Hbs Hfuel Hbound.
  - destruct fuel as [|k]; [cbn in Hfuel; lia|]. cbn [readVarintLoop app fold_left].
    destruct (drop_head_byteAt data (pos + i) last tail) as [-> _]; [lia|done|].
    rewrite high_bit_byte, low_bits_byte.
    replace (u8 last <? 128) with true by (symmetry; apply Z.ltb_lt; lia).
    pose proof (Z.mod_pos_bound (u8 last) 128 ltac:(lia)).
    change (len (@nil byte) + 1) with 1 in Hbound. change (128 ^ 1) with 128 in Hbound.
    rewrite fl_small by lia. do 2 f_equal. unfold len. cbn [length]. lia.
  - destruct fuel as [|k]; [cbn in Hfuel; lia|]. cbn [readVarintLoop app fold_left].
    cbn [app] in Hd.
    destruct (drop_head_byteAt data (pos + i) b (bs ++ last :: tail)) as [-> Hd']; [lia|done|].
    inversion Hbs as [|?? Hb Hbs']; subst.
    rewrite high_bit_byte, low_bits_byte.
    replace (u8 b <? 128) with false by (symmetry; apply Z.ltb_ge; lia).
    pose proof (Z.mod_pos_bound (u8 b) 128 ltac:(lia)).
    assert (Hp : 0 < 128 ^ (len bs + 1)) by (apply Z.pow_pos_nonneg; unfold len; lia).
    assert (Hpow : 128 ^ (len (b :: bs) + 1) = 128 * 128 ^ (len bs + 1)).
    { unfold len. cbn [length]. rewrite Nat2Z.inj_succ.
      replace (Z.succ (Z.of_nat (length bs)) + 1) with (Z.succ (Z.of_nat (length bs) + 1)) by lia.
      rewrite Z.pow_succ_r by lia. done. }
    rewrite Hpow in Hbound.
    rewrite fl_small by nia.
    rewrite (IH k (i + 1) (acc * 128 + u8 b mod 128)).
    + do 2 f_equal. unfold len. cbn [length]. lia.
    + lia.
    + lia.
    + by replace (pos + (i + 1)) with (pos + i + 1) by lia.
    + done.
    + cbn [length] in Hfuel. lia.
    + nia.
Qed.

(** X22. A variable-length integer of up to seven bytes is read exactly:
    where the bytes at the position are bytes with the high bit set
    followed by a byte with the high bit clear, [readVarint] returns the
    number that the low seven bits of these bytes spell, most significant
    group first, and the count of these bytes; the bytes that follow are
    not looked at. *)
Theorem varint_value (data : list byte) (pos : Z) (bs : list byte) (last : byte)
  (tail : list byte) :
  0 <= pos ->
  drop (Z.to_nat pos) data = bs ++ last :: tail ->
  Forall (fun b => 128 <= u8 b) bs ->
  u8 last < 128 ->
  len bs <= 6 ->
  readVarint data pos = (Int (varintValue (bs ++ [last])), len bs + 1).
Proof.
  intros Hpos Hd Hbs Hlast Hlen. unfold readVarint, varintValue.
  rewrite (readVarintLoop_value data pos last tail Hpos Hlast bs 8 0 0);
    [f_equal; lia|lia|lia|by rewrite Z.add_0_r|done|unfold len in Hlen; lia|].
  rewrite Z.mul_1_l.
  change (2 ^ 53) with (128 ^ 7 * 16).
  assert (128 ^ (len bs + 1) <= 128 ^ 7) by (apply Z.pow_le_mono_r; unfold len in *; lia).
  lia.
Qed.

Lemma varint_value_witness :
  readVarint (bytes_of [9; 0x81; 0x01; 0xFF]) 1 = (Int 129, 2).
Proof.
  apply (varint_value (bytes_of [9; 0x81; 0x01; 0xFF]) 1 (bytes_of [0x81])
           (byte_of_Z 1) (bytes_of [0xFF])).
  - lia.
  - reflexivity.
  - repeat constructor. vm_compute. discriminate.
  - vm_compute. reflexivity.
  - vm_compute. discriminate.
Defined.






(** ** Blocks and sessions of the frame decoder *)

Section Xpress9Runs.

Variable createResult : nat -> option bool.
Variable startResult : nat -> bool.
Variable decodeResult : list libcall -> nat -> list byte -> Z -> list byte.

Abbreviation blockStep := (decompressBlock decodeResult).
Abbreviation sequential := (sequentialLoop decodeResult).
Abbreviation decompress := (decompressXpress9 createResult startResult decodeResult).

Lemma decompressBlock_progress buf st :
  0 <= offset st -> offset st + 8 <= len buf ->
  exists st',
    (blockStep buf st).2 = Ok st'
    /\ offset st + 8 <= offset st' <= len buf
    /\ (chunks st' = chunks st
        \/ exists out, out <> [] /\ chunks st' = chunks st ++ [out]).
Proof.
  intros Hoff Hlen. unfold decompressBlock, getUint32, getUintLE.
  replace ((0 <=? offset st) && (offset st + 4 <=? len buf)) with true
    by (symmetry; apply andb_true_iff; split; [apply Z.leb_le|apply Z.leb_le]; lia).
  replace ((0 <=? offset st + 4) && (offset st + 4 + 4 <=? len buf)) with true
    by (symmetry; apply andb_true_iff; split; [apply Z.leb_le|apply Z.leb_le]; lia).
  set (uncompSize := le_combine (slice buf (offset st) (offset st + 4))).
  set (compSize := le_combine (slice buf (offset st + 4) (offset st + 4 + 4))).
  assert (0 <= compSize) by apply le_combine_nonneg.
  destruct ((compSize =? 0) || (uncompSize =? 0) || (len buf <? offset st + 8 + compSize))
    eqn:E.
  - eexists. split; [reflexivity|]. cbn [offset chunks]. split; [lia|by left].
  - apply orb_false_iff in E as [_ E]. apply Z.ltb_ge in E.
    destruct (xpress9_decompress _ _ _ _) as [w out].
    eexists. split; [reflexivity|]. cbn [offset chunks]. split; [lia|].
    destruct (0 <? len out) eqn:Eo; [|by left].
    right. exists out. split; [|done]. intros ->. vm_compute in Eo. discriminate.
Qed.

(** X24. A block whose eight bytes of header lie inside the buffer is
    always consumed: reading it does not throw, the offset moves forward
    by at least eight bytes and never beyond the end of the buffer, and
    at most one chunk, never an empty one, is added. *)
Theorem block_advances_within_buffer (buf : list byte) (st : Frames) :
  0 <= offset st -> offset st + 8 <= len buf ->
  exists st',
    (blockStep buf st).2 = Ok st'
    /\ offset st + 8 <= offset st' <= len buf
    /\ (chunks st' = chunks st
        \/ exists out, out <> [] /\ chunks st' = chunks st ++ [out]).
Proof. apply decompressBlock_progress. Qed.

Lemma sequentialLoop_calls buf fuel : forall st id,
  0 <= offset st ->
  g_decoder (wasm st) = Some id ->
  exists bs st',
    sequential fuel buf st = (wasm st', Ok st')
    /\ calls (wasm st') = calls (wasm st) ++ (DecoderDecode id <$> bs)
    /\ g_decoder (wasm st') = Some id
    /\ created (wasm st') = created (wasm st).
Proof.
  induction fuel as [|f IH]; intros st id Hoff Hid; cbn [sequentialLoop].
  - exists [], st. by rewrite fmap_nil, app_nil_r.
  - destruct (offset st + 8 <=? len buf) eqn:E.
    + apply Z.leb_le in E.
      destruct (decompressBlock_progress buf st Hoff E) as (st1 & E1 & Ho1 & _).
      destruct (decompressBlock_calls decodeResult buf st id Hid)
        as (bs1 & C1 & _ & G1 & K1 & W1).
      destruct (blockStep buf st) as [w1 r1]; cbn [fst snd] in *. subst r1.
      specialize (W1 st1 eq_refl). subst w1.
      replace (offset st1 =? offset st) with false by (symmetry; apply Z.eqb_neq; lia).
      destruct (IH st1 id) as (bs2 & st2 & E2 & C2 & G2 & K2); [lia|done|].
      exists (bs1 ++ bs2), st2. rewrite E2, C2, C1, fmap_app, app_assoc, K2, K1. done.
    + exists [], st. by rewrite fmap_nil, app_nil_r.
Qed.

(** X25. A single-threaded stream is decoded in one session: from a
    module without a decoder and a library that creates and starts the
    decoder, the run succeeds, and its library calls are the creation of
    one decoder, the start of its session, decode calls on that decoder
    only and its destruction; the module is left without a decoder. *)
Theorem single_threaded_one_session (w : Wasm) (buf : list byte) :
  isMultiThread buf = false ->
  g_decoder w = None ->
  createResult (created w) = Some true ->
  startResult (created w) = true ->
  exists (blocks : list (list byte)) (out : list byte),
    decompress w buf
    = ({| g_decoder := None; created := S (created w);
          calls := calls w
                   ++ [DecoderCreate (created w); DecoderStartSession (created w)]
                   ++ (DecoderDecode (created w) <$> blocks)
                   ++ [DecoderDestroy (created w)] |},
       Ok out).
Proof.
  intros Hmt Hnone Hcreate Hstart. unfold decompressXpress9, xpress9_init.
  rewrite Hmt, Hnone, Hcreate, Hstart. cbn [Z.eqb].
  set (w1 := {| g_decoder := Some (created w); created := S (created w);
                calls := calls w ++ [DecoderCreate (created w);
                                     DecoderStartSession (created w)] |}).
  destruct (sequentialLoop_calls buf (length buf)
              {| wasm := w1; offset := 102; chunks := [] |} (created w))
    as (bs & st' & E & C & G & K); [cbn; lia|done|].
  rewrite E. exists bs, (concat (chunks st')). f_equal.
  unfold xpress9_free. rewrite G, C, K. cbn [wasm calls created w1].
  by rewrite <- !app_assoc.
Qed.

(** X26. A decoder whose session failed to start is kept: the failed
    single-threaded run throws and leaves the decoder in the module, and
    the next single-threaded run decodes its blocks with that decoder
    without creating a decoder or starting a session. *)
Theorem failed_start_decoder_is_reused (w : Wasm) (buf buf2 : list byte) :
  isMultiThread buf = false ->
  isMultiThread buf2 = false ->
  g_decoder w = None ->
  createResult (created w) = Some true ->
  startResult (created w) = false ->
  exists w1,
    decompress w buf = (w1, Throw "XPress9 init failed")
    /\ g_decoder w1 = Some (created w)
    /\ exists (blocks : list (list byte)) (out : list byte),
         decompress w1 buf2
         = ({| g_decoder := None; created := created w1;
               calls := calls w1 ++ (DecoderDecode (created w) <$> blocks)
                        ++ [DecoderDestroy (created w)] |},
            Ok out).
Proof.
  intros Hmt Hmt2 Hnone Hcreate Hstart. unfold decompressXpress9 at 1, xpress9_init.
  rewrite Hmt, Hnone, Hcreate, Hstart. cbn [Z.eqb].
  eexists. split; [reflexivity|]. split; [done|].
  unfold decompressXpress9, xpress9_init. rewrite Hmt2. cbn [g_decoder Z.eqb].
  set (w1 := {| g_decoder := Some (created w); created := S (created w);
                calls := calls w ++ [DecoderCreate (created w);
                                     DecoderStartSession (created w)] |}).
  destruct (sequentialLoop_calls buf2 (length buf2)
              {| wasm := w1; offset := 102; chunks := [] |} (created w))
    as (bs & st' & E & C & G & K); [cbn; lia|done|].
  rewrite E. exists bs, (concat (chunks st')). f_equal.
  unfold xpress9_free. rewrite G, C, K. cbn [wasm calls created w1].
  by rewrite <- !app_assoc.
Qed.

(** X27. A run that returns leaves no decoder behind: whatever the
    stream, the library and the state of the module before, after a
    successful run the module holds no decoder. *)
Theorem successful_run_releases_decoder (w w' : Wasm) (buf out : list byte) :
  decompress w buf = (w', Ok out) ->
  g_decoder w' = None.
Proof.
  unfold decompressXpress9.
  destruct (if isMultiThread buf then _ else _) as [w1 [st|m]]; [|done].
  intros [= <- _]. apply xpress9_free_calls.
Qed.

End Xpress9Runs.

Lemma block_advances_within_buffer_witness :
  exists st',
    (decompressBlock (fun _ _ src _ => src) exSingleStream
       {| wasm := exWasm; offset := 102; chunks := [] |}).2 = Ok st'
    /\ 102 + 8 <= offset st' <= len exSingleStream
    /\ (chunks st' = []
        \/ exists out, out <> [] /\ chunks st' = [] ++ [out]).
Proof.
  apply (block_advances_within_buffer (fun _ _ src _ => src) exSingleStream
           {| wasm := exWasm; offset := 102; chunks := [] |});
    vm_compute; discriminate.
Defined.

Lemma single_threaded_one_session_witness :
  exists (blocks : list (list byte)) (out : list byte),
    decompressXpress9 (fun _ => Some true) (fun _ => true) (fun _ _ src _ => src)
      exWasm exSingleStream
    = ({| g_decoder := None; created := 1;
          calls := [] ++ [DecoderCreate 0; DecoderStartSession 0]
                   ++ (DecoderDecode 0 <$> blocks) ++ [DecoderDestroy 0] |},
       Ok out).
Proof.
  apply (single_threaded_one_session (fun _ => Some true) (fun _ => true)
           (fun _ _ src _ => src) exWasm exSingleStream);
    vm_compute; reflexivity.
Defined.

Lemma failed_start_decoder_is_reused_witness :
  exists w1,
    decompressXpress9 (fun _ => Some true) (fun _ => false) (fun _ _ src _ => src)
      exWasm exSingleStream
    = (w1, Throw "XPress9 init failed")
    /\ g_decoder w1 = Some 0%nat
    /\ exists (blocks : list (list byte)) (out : list byte),
         decompressXpress9 (fun _ => Some true) (fun _ => false) (fun _ _ src _ => src)
           w1 exSingleStream
         = ({| g_decoder := None; created := created w1;
               calls := calls w1 ++ (DecoderDecode 0 <$> blocks) ++ [DecoderDestroy 0] |},
            Ok out).
Proof.
  apply (failed_start_decoder_is_reused (fun _ => Some true) (fun _ => false)
           (fun _ _ src _ => src) exWasm exSingleStream exSingleStream);
    vm_compute; reflexivity.
Defined.

Lemma successful_run_releases_decoder_witness :
  g_decoder
    {| g_decoder := None; created := 1;
       calls := [DecoderCreate 0; DecoderStartSession 0;
                 DecoderDecode 0 (bytes_of [0xAA; 0xBB]); DecoderDestroy 0] |} = None.
Proof.
  apply (successful_run_releases_decoder (fun _ => Some true) (fun _ => true)
           (fun _ _ src _ => src) exWasm _ exSingleStream (bytes_of [0xAA; 0xBB])).
  vm_compute. reflexivity.
Defined.

(** ** Helpers of the user interface and of the exports *)

Lemma replaceAllChar_removes (c : N) (by_ t : jsstring) :
  Forall (fun x => x <> c) by_ -> Forall (fun x => x <> c) (replaceAllChar c by_ t).
Proof.
  intros Hby. unfold replaceAllChar. induction t as [|x t IH]; cbn [flat_map]; [constructor|].
  apply Forall_app. split; [|done].
  destruct (x =? c)%N eqn:E; [done|]. apply N.eqb_neq in E. by constructor.
Qed.

Lemma replaceAllChar_keeps (d c : N) (by_ t : jsstring) :
  Forall (fun x => x <> d) by_ -> Forall (fun x => x <> d) t ->
  Forall (fun x => x <> d) (replaceAllChar c by_ t).
Proof.
  intros Hby Ht. unfold replaceAllChar. induction Ht as [|x t Hx Ht IH]; cbn [flat_map];
    [constructor|].
  apply Forall_app. split; [|done].
  destruct (x =? c)%N; [done|]. by constructor.
Qed.

Lemma replaceAllChar_absent (c : N) (by_ t : jsstring) :
  Forall (fun x => x <> c) t -> replaceAllChar c by_ t = t.
Proof.
  intros Ht. unfold replaceAllChar. induction Ht as [|x t Hx Ht IH]; cbn [flat_map]; [done|].
  apply N.eqb_neq in Hx. by rewrite Hx, IH.
Qed.

Ltac entity_free := vm_compute; repeat constructor; discriminate.

(** X28. Escaped text holds no markup character: whatever the input, the
    result of [escapeHtml] contains no less-than sign, no greater-than
    sign, no double quote and no apostrophe; and text without these and
    without an ampersand is returned unchanged. *)
Theorem escapeHtml_no_markup (t : option jsstring) :
  Forall (fun c => c <> LT /\ c <> GT /\ c <> DQUOTE /\ c <> APOS) (escapeHtml t)
  /\ forall s, t = Some s ->
       Forall (fun c => c <> AMP /\ c <> LT /\ c <> GT /\ c <> DQUOTE /\ c <> APOS) s ->
       escapeHtml t = s.
Proof.
  split.
  - destruct t as [t|]; [|constructor]. unfold escapeHtml.
    set (t1 := replaceAllChar AMP _ t).
    assert (Hlt : Forall (fun x => x <> LT) (replaceAllChar LT (js "&lt;") t1))
      by (apply replaceAllChar_removes; entity_free).
    set (t2 := replaceAllChar LT _ t1) in *.
    assert (Hgt : Forall (fun x => x <> GT) (replaceAllChar GT (js "&gt;") t2))
      by (apply replaceAllChar_removes; entity_free).
    assert (Hlt2 : Forall (fun x => x <> LT) (replaceAllChar GT (js "&gt;") t2))
      by (apply replaceAllChar_keeps; [entity_free|done]).
    set (t3 := replaceAllChar GT _ t2) in *.
    assert (Hq : Forall (fun x => x <> DQUOTE) (replaceAllChar DQUOTE (js "&quot;") t3))
      by (apply replaceAllChar_removes; entity_free).
    assert (Hlt3 : Forall (fun x => x <> LT) (replaceAllChar DQUOTE (js "&quot;") t3))
      by (apply replaceAllChar_keeps; [entity_free|done]).
    assert (Hgt3 : Forall (fun x => x <> GT) (replaceAllChar DQUOTE (js "&quot;") t3))
      by (apply replaceAllChar_keeps; [entity_free|done]).
    set (t4 := replaceAllChar DQUOTE _ t3) in *.
    assert (Ha : Forall (fun x => x <> APOS) (replaceAllChar APOS (js "&#39;") t4))
      by (apply replaceAllChar_removes; entity_free).
    assert (Hlt4 : Forall (fun x => x <> LT) (replaceAllChar APOS (js "&#39;") t4))
      by (apply replaceAllChar_keeps; [entity_free|done]).
    assert (Hgt4 : Forall (fun x => x <> GT) (replaceAllChar APOS (js "&#39;") t4))
      by (apply replaceAllChar_keeps; [entity_free|done]).
    assert (Hq4 : Forall (fun x => x <> DQUOTE) (replaceAllChar APOS (js "&#39;") t4))
      by (apply replaceAllChar_keeps; [entity_free|done]).
    set (t5 := replaceAllChar APOS _ t4) in *.
    rewrite Forall_forall in *. intros c Hc. repeat split; eauto.
  - intros s -> Hs. unfold escapeHtml.
    rewrite (replaceAllChar_absent AMP _ s), (replaceAllChar_absent LT _ s),
      (replaceAllChar_absent GT _ s), (replaceAllChar_absent DQUOTE _ s),
      (replaceAllChar_absent APOS _ s); [done|..];
      (eapply Forall_impl; [exact Hs|]; cbn; intros; tauto).
Qed.

Lemma escapeHtml_no_markup_witness :
  Forall (fun c => c <> LT /\ c <> GT /\ c <> DQUOTE /\ c <> APOS)
    (escapeHtml (Some (js "<b>&'")))
  /\ escapeHtml (Some (js "Orders")) = js "Orders".
Proof.
  split.
  - apply (escapeHtml_no_markup (Some (js "<b>&'"))).
  - apply (escapeHtml_no_markup (Some (js "Orders"))); [reflexivity|].
    vm_compute. repeat constructor; discriminate.
Defined.

(** The escaped form of a text with all five characters. *)
Example escapeHtml_example :
  escapeHtml (Some (js "<a&b>'")) = js "&lt;a&amp;b&gt;&#39;".
Proof. vm_compute. reflexivity. Qed.

Lemma columnValue_snoc (l : jsstring) (c : N) :
  fold_left (fun idx c => idx * 26 + (Z.of_N c - 64)) (l ++ [c]) 0
  = fold_left (fun idx c => idx * 26 + (Z.of_N c - 64)) l 0 * 26 + (Z.of_N c - 64).
Proof. by rewrite fold_left_app. Qed.

Lemma isUpper_range (c : N) : isUpper c = true -> 1 <= Z.of_N c - 64 <= 26.
Proof.
  unfold isUpper, inRange. intros [H1 H2]%andb_true_iff.
  apply N.leb_le in H1, H2. lia.
Qed.

Lemma columnValue_bounds (l : jsstring) :
  Forall (fun c => isUpper c = true) l ->
  0 <= fold_left (fun idx c => idx * 26 + (Z.of_N c - 64)) l 0
  /\ fold_left (fun idx c => idx * 26 + (Z.of_N c - 64)) l 0 + 1 <= 27 ^ len l.
Proof.
  induction l as [|c l IH] using rev_ind; intros Hl.
  - unfold len. cbn [fold_left length]. change (27 ^ Z.of_nat 0) with 1. lia.
  - apply Forall_app in Hl as [Hl Hc]. inversion Hc as [|?? Hc' _]; subst.
    apply isUpper_range in Hc'. specialize (IH Hl).
    rewrite columnValue_snoc, len_app. change (len [c]) with 1.
    rewrite Z.pow_add_r by (unfold len; lia). change (27 ^ 1) with 27. nia.
Qed.

Lemma columnValue_exact (l : jsstring) :
  Forall (fun c => isUpper c = true) l -> len l <= 7 ->
  fold_left (fun idx c => fl (idx * 26 + (Z.of_N c - 64))) l 0
  = fold_left (fun idx c => idx * 26 + (Z.of_N c - 64)) l 0.
Proof.
  induction l as [|c l IH] using rev_ind; intros Hl Hlen; [done|].
  apply Forall_app in Hl as [Hl Hc]. inversion Hc as [|?? Hc' _]; subst.
  apply isUpper_range in Hc'. rewrite len_app in Hlen. change (len [c]) with 1 in Hlen.
  rewrite !fold_left_app. cbn [fold_left]. rewrite IH by (done || lia).
  destruct (columnValue_bounds l Hl) as [H0 H1].
  assert (27 ^ len l <= 27 ^ 6) by (apply Z.pow_le_mono_r; unfold len in *; lia).
  apply fl_small. change (27 ^ 6) with 387420489 in *. change (2 ^ 53) with 9007199254740992.
  lia.
Qed.

Lemma columnValue_injective (l1 : jsstring) : forall l2 : jsstring,
  Forall (fun c => isUpper c = true) l1 ->
  Forall (fun c => isUpper c = true) l2 ->
  fold_left (fun idx c => idx * 26 + (Z.of_N c - 64)) l1 0
  = fold_left (fun idx c => idx * 26 + (Z.of_N c - 64)) l2 0 ->
  l1 = l2.
Proof.
  induction l1 as [|c1 l1 IH] using rev_ind; intros l2 H1 H2 E.
  - destruct l2 as [|c2 l2] using rev_ind; [done|].
    apply Forall_app in H2 as [H2 Hc]. inversion Hc as [|?? Hc' _]; subst.
    apply isUpper_range in Hc'. destruct (columnValue_bounds l2 H2) as [? _].
    rewrite columnValue_snoc in E. cbn in E. lia.
  - apply Forall_app in H1 as [H1 Hc1]. inversion Hc1 as [|?? Hc1' _]; subst.
    apply isUpper_range in Hc1'. destruct (columnValue_bounds l1 H1) as [? _].
    destruct l2 as [|c2 l2 _] using rev_ind.
    + rewrite columnValue_snoc in E. cbn in E. lia.
    + apply Forall_app in H2 as [H2 Hc2]. inversion Hc2 as [|?? Hc2' _]; subst.
      apply isUpper_range in Hc2'. destruct (columnValue_bounds l2 H2) as [? _].
      rewrite !columnValue_snoc in E.
      assert (Hq : fold_left (fun idx c => idx * 26 + (Z.of_N c - 64)) l1 0
                   = fold_left (fun idx c => idx * 26 + (Z.of_N c - 64)) l2 0) by lia.
      assert (Hd : c1 = c2) by lia.
      rewrite (IH l2 H1 H2 Hq), Hd. done.
Qed.

(** X29. Distinct column letters give distinct column indices: for cell
    references whose letters are at most seven capitals A to Z, equal
    indices mean equal letters, whatever digits the references hold; no
    index is negative once there is a letter. *)
Theorem column_index_injective (ref1 ref2 : jsstring) :
  Forall (fun c => isUpper c = true) (lettersOf ref1) -> len (lettersOf ref1) <= 7 ->
  Forall (fun c => isUpper c = true) (lettersOf ref2) -> len (lettersOf ref2) <= 7 ->
  (colRefToIndex ref1 = colRefToIndex ref2 -> lettersOf ref1 = lettersOf ref2)
  /\ (lettersOf ref1 <> [] -> 0 <= colRefToIndex ref1).
Proof.
  intros H1 L1 H2 L2. unfold colRefToIndex.
  rewrite !columnValue_exact by done.
  destruct (columnValue_bounds _ H1) as [B1 C1].
  destruct (columnValue_bounds _ H2) as [B2 C2].
  assert (27 ^ len (lettersOf ref1) <= 27 ^ 7)
    by (apply Z.pow_le_mono_r; unfold len in *; lia).
  assert (27 ^ len (lettersOf ref2) <= 27 ^ 7)
    by (apply Z.pow_le_mono_r; unfold len in *; lia).
  change (27 ^ 7) with 10460353203 in *.
  rewrite !fl_small by (change (2 ^ 53) with 9007199254740992; lia).
  split.
  - intros E. apply columnValue_injective; [done|done|lia].
  - intros Hne. destruct (lettersOf ref1) as [|c l] using rev_ind; [done|].
    apply Forall_app in H1 as [H1 Hc]. inversion Hc as [|?? Hc' _]; subst.
    apply isUpper_range in Hc'. destruct (columnValue_bounds l H1) as [? _].
    rewrite columnValue_snoc. lia.
Qed.

Lemma column_index_injective_witness :
  lettersOf (js "AB12") = lettersOf (js "AB7") /\ 0 <= colRefToIndex (js "AB12").
Proof.
  destruct (column_index_injective (js "AB12") (js "AB7")) as [H1 H2];
    [vm_compute; repeat constructor|vm_compute; discriminate
    |vm_compute; repeat constructor|vm_compute; discriminate|].
  split; [apply H1; vm_compute; reflexivity|apply H2; vm_compute; discriminate].
Defined.

(** The first columns, and the last column of a sheet. *)
Example colRefToIndex_examples :
  colRefToIndex (js "A1") = 0 /\ colRefToIndex (js "Z9") = 25
  /\ colRefToIndex (js "AA10") = 26 /\ colRefToIndex (js "XFD1048576") = 16383.
Proof. repeat split; vm_compute; reflexivity. Qed.

(** ** Thrift compact-protocol integers of the Parquet writer *)

Lemma land_127 (v : Z) : Z.land v 0x7f = v mod 128.
Proof. change 0x7f with (Z.ones 7). by rewrite Z.land_ones. Qed.

Lemma lor_128 (v : Z) : Z.lor (v mod 128) 0x80 = v mod 128 + 128.
Proof.
  pose proof (Z.mod_pos_bound v 128 ltac:(lia)) as H.
  exact (lor_low_high (v mod 128) 1 7 ltac:(lia) H).
Qed.

Lemma continued_cons (b : Z) (rest : list Z) :
  128 <= b < 256 -> continued rest -> continued (b :: rest).
Proof. intros Hb Hrest. destruct rest; [done|]. by split. Qed.

Lemma writeVarintLoop_S (fuel : nat) (arr : list Z) (v : Z) :
  writeVarintLoop (S fuel) arr v
  = if 0x7f <? v
    then writeVarintLoop fuel (arr ++ [Z.lor (Z.land v 0x7f) 0x80]) (Z.shiftr v 7)
    else arr ++ [Z.land v 0x7f].
Proof. reflexivity. Qed.

Lemma writeVarintLoop_spec : forall (fuel : nat) (arr : list Z) (v : Z),
  0 <= v < 128 ^ Z.of_nat (S fuel) ->
  exists bs,
    writeVarintLoop (S fuel) arr v = arr ++ bs
    /\ leb128 bs = v /\ continued bs /\ (length bs <= S fuel)%nat.
Proof.
  assert (Hlast : forall arr v, 0 <= v -> (127 <? v) = false ->
    forall fuel, exists bs,
      writeVarintLoop (S fuel) arr v = arr ++ bs
      /\ leb128 bs = v /\ continued bs /\ (length bs <= S fuel)%nat).
  { intros arr v Hv E fuel. apply Z.ltb_ge in E. exists [v mod 128].
    rewrite writeVarintLoop_S, land_127.
    replace (127 <? v) with false by (symmetry; apply Z.ltb_ge; lia).
    split; [done|]. rewrite Z.mod_small by lia.
    split; [cbn [leb128 foldr]; rewrite Z.mod_small by lia; lia|].
    split; [cbn [continued]; lia|cbn [length]; lia]. }
  induction fuel as [|k IH]; intros arr v Hv.
  - change (128 ^ Z.of_nat 1) with 128 in Hv.
    apply Hlast; [lia|]. apply Z.ltb_ge. lia.
  - destruct (127 <? v) eqn:E; [|apply Hlast; [lia|done]].
    rewrite writeVarintLoop_S, E.
    apply Z.ltb_lt in E. rewrite land_127, lor_128, Z.shiftr_div_pow2 by lia.
    change (2 ^ 7) with 128.
    assert (Hq : 0 <= v / 128 < 128 ^ Z.of_nat (S k)).
    { rewrite (Nat2Z.inj_succ (S k)), Z.pow_succ_r in Hv by lia.
      split; [apply Z.div_pos; lia|apply Z.div_lt_upper_bound; lia]. }
    destruct (IH (arr ++ [v mod 128 + 128]) (v / 128) Hq) as (bs & E1 & E2 & E3 & E4).
    exists ((v mod 128 + 128) :: bs). rewrite E1, <- app_assoc.
    pose proof (Z.mod_pos_bound v 128 ltac:(lia)).
    split; [done|]. split; [|split; [|cbn [length]; lia]].
    + cbn [leb128 foldr]. fold (leb128 bs). rewrite E2.
      replace ((v mod 128 + 128) mod 128) with (v mod 128)
        by (rewrite <- (Z.mul_1_l 128) at 3; by rewrite Z.mod_add, Z.mod_mod by lia).
      pose proof (Z.div_mod v 128 ltac:(lia)). lia.
    + apply continued_cons; [lia|done].
Qed.

Lemma writeVarint_spec (arr : list Z) (v : Z) :
  exists bs,
    writeVarint arr v = arr ++ bs
    /\ leb128 bs = v mod 2 ^ 32 /\ continued bs /\ (length bs <= 5)%nat.
Proof.
  unfold writeVarint. apply writeVarintLoop_spec.
  pose proof (Z.mod_pos_bound v (2 ^ 32) ltac:(lia)).
  change (128 ^ Z.of_nat 5) with (2 ^ 32 * 8). lia.
Qed.

Lemma toInt32_mod (z : Z) : toInt32 z mod 2 ^ 32 = z mod 2 ^ 32.
Proof.
  unfold toInt32. destruct (z mod 2 ^ 32 <? 2 ^ 31).
  - by rewrite Z.mod_mod.
  - replace (z mod 2 ^ 32 - 2 ^ 32) with (z mod 2 ^ 32 + (-1) * 2 ^ 32) by lia.
    by rewrite Z.mod_add, Z.mod_mod.
Qed.

Lemma toInt32_small (z : Z) : - 2 ^ 31 <= z < 2 ^ 31 -> toInt32 z = z.
Proof.
  intros Hz. unfold toInt32.
  destruct (Z.lt_ge_cases z 0).
  - replace (z mod 2 ^ 32) with (z + 2 ^ 32).
    + replace (z + 2 ^ 32 <? 2 ^ 31) with false by (symmetry; apply Z.ltb_ge; lia). lia.
    + apply Z.mod_unique with (-1); lia.
  - rewrite Z.mod_small by lia.
    replace (z <? 2 ^ 31) with true by (symmetry; apply Z.ltb_lt; lia). done.
Qed.

(** X30. [writeZigzag] appends the zigzag code of a 32-bit integer as a
    little-endian base-128 number: at most five bytes, every byte but the
    last with the high bit set, which spell 2v for a non-negative v and
    -2v - 1 for a negative one, so that the sign and the value can be
    read back; the bytes already in the array are kept. *)
Theorem zigzag_varint_encoding (arr : list Z) (v : Z) :
  - 2 ^ 31 <= v < 2 ^ 31 ->
  exists bs,
    writeZigzag arr v = arr ++ bs
    /\ leb128 bs = (if 0 <=? v then 2 * v else - 2 * v - 1)
    /\ continued bs /\ (length bs <= 5)%nat.
Proof.
  intros Hv. unfold writeZigzag.
  destruct (writeVarint_spec arr
              (toInt32 (Z.lxor (js_shl v 1) (Z.shiftr (toInt32 v) 31))))
    as (bs & E1 & E2 & E3 & E4).
  exists bs. split; [done|]. split; [|done]. rewrite E2, toInt32_mod.
  unfold js_shl. rewrite !(toInt32_small v Hv).
  change (1 mod 32) with 1. rewrite Z.shiftl_mul_pow2 by lia. change (2 ^ 1) with 2.
  rewrite Z.shiftr_div_pow2 by lia.
  destruct (0 <=? v) eqn:E; [apply Z.leb_le in E|apply Z.leb_gt in E].
  - rewrite (Z.div_small v) by lia. rewrite Z.lxor_0_r, toInt32_mod.
    rewrite Z.mod_small by lia. lia.
  - replace (v / 2 ^ 31) with (-1) by (apply Z.div_unique with (v + 2 ^ 31); lia).
    rewrite Z.lxor_m1_r. unfold Z.lnot.
    set (t := toInt32 (v * 2)).
    assert (Ht : t mod 2 ^ 32 = (v * 2) mod 2 ^ 32) by apply toInt32_mod.
    assert (Hm : (v * 2) mod 2 ^ 32 = v * 2 + 2 ^ 32)
      by (symmetry; apply Z.mod_unique with (-1); lia).
    symmetry. apply Z.mod_unique with ((- t - 1 - (- 2 * v - 1)) / 2 ^ 32); [lia|].
    assert (Hdiv : (- t - 1 - (- 2 * v - 1)) mod 2 ^ 32 = 0).
    { replace (- t - 1 - (- 2 * v - 1)) with (v * 2 - t) by lia.
      rewrite Zminus_mod, Ht, Z.sub_diag. done. }
    pose proof (Z.div_mod (- t - 1 - (- 2 * v - 1)) (2 ^ 32) ltac:(lia)). 
    unfold Z.pred. lia.
Qed.

Lemma zigzag_varint_encoding_witness :
  exists bs,
    writeZigzag [21] (-65) = [21] ++ bs
    /\ leb128 bs = (if 0 <=? -65 then 2 * -65 else - 2 * -65 - 1)
    /\ continued bs /\ (length bs <= 5)%nat.
Proof. apply (zigzag_varint_encoding [21] (-65)). lia. Defined.

(** The bytes of the example: the code 129 in two bytes. *)
Example writeZigzag_example : writeZigzag [21] (-65) = [21; 129; 1].
Proof. vm_compute. reflexivity. Qed.
